(** * Lab06: bounded queues and the three-stage pipeline

    A shallow embedding of [src/p2_ring.cpp] (the circular producer/consumer
    buffer) and of [src/p5_pipeline.cpp] (the generator / processor /
    filter-reduce pipeline with its two timed buffers), followed by the
    properties of the specification that concern them.

    Threads and locks.  Every access to a queue happens between
    [pthread_mutex_lock] and [pthread_mutex_unlock] (or a condition wait,
    which releases the mutex atomically).  One such lock-protected pass is
    one atomic transition of the shared state, so an interleaving of threads
    is a sequence of these transitions.  A pass that ends in a condition wait
    yields [Wait]; the call resumes later with a fresh pass, exactly as the
    [while] loop of the source re-tests its condition after every wake-up. *)

From Stdlib Require Import ZArith Lia List Bool PrimFloat Uint63.
From stdpp Require Import base list.
Import ListNotations.
Local Open Scope Z_scope.
Set Warnings "-inexact-float".

(** Result of one lock-protected pass of a blocking call. *)
Inductive outcome (A : Type) : Type :=
| Wait : outcome A
| Ret : A -> outcome A.
Arguments Wait {A}.
Arguments Ret {A} _.

(** [std::size_t] arithmetic is modulo 2^64. *)
Definition size_t_wrap (z : Z) : Z := z mod 2 ^ 64.

(* ====================================================================== *)
(** ** p2_ring.cpp *)
(* ====================================================================== *)

Module P2.

Definition QUEUE_SIZE : Z := 1024.
Definition POISON_PILL : Z := -1.

(** [struct Ring].  The mutex and the two condition variables are the
    scheduling discipline described above and carry no data.  [buffer] is the
    array [int buffer[QUEUE_SIZE]]; the [long] statistics are kept as
    unbounded integers (signed overflow is not defined in C++, and
    [counters_bounded] below shows that they stay under the number of
    transitions performed). *)
Record Ring : Type := mkRing {
  buffer : list Z;
  head : Z;
  tail : Z;
  count : Z;
  stop_requested : bool;
  force_stop : bool;
  total_produced : Z;
  total_consumed : Z;
  producer_blocks : Z;
  consumer_blocks : Z
}.

(** A freshly declared [Ring ring;]: the member initialisers of the struct,
    over an array whose cell [i] holds whatever [mem i] was in memory. *)
Definition ring_init (mem : nat -> Z) : Ring :=
  {| buffer := map mem (seq 0 (Z.to_nat QUEUE_SIZE));
     head := 0; tail := 0; count := 0;
     stop_requested := false; force_stop := false;
     total_produced := 0; total_consumed := 0;
     producer_blocks := 0; consumer_blocks := 0 |}.

(** [buffer[i]]; reading outside the array is not defined in the source and
    does not happen under [ring_wf]. *)
Definition buffer_at (ring : Ring) (i : Z) : Z :=
  default 0 (buffer ring !! Z.to_nat i).

(** One pass of [ring_push]. *)
Definition ring_push (ring : Ring) (value : Z) : Ring * outcome bool :=
  if (count ring =? QUEUE_SIZE) && negb (stop_requested ring)
     && negb (force_stop ring)
  then
    ({| buffer := buffer ring; head := head ring; tail := tail ring;
        count := count ring;
        stop_requested := stop_requested ring; force_stop := force_stop ring;
        total_produced := total_produced ring;
        total_consumed := total_consumed ring;
        producer_blocks := producer_blocks ring + 1;
        consumer_blocks := consumer_blocks ring |}, Wait)
  else if stop_requested ring || force_stop ring
  then (ring, Ret false)
  else
    ({| buffer := <[Z.to_nat (head ring) := value]> (buffer ring);
        head := size_t_wrap (head ring + 1) mod QUEUE_SIZE;
        tail := tail ring;
        count := size_t_wrap (count ring + 1);
        stop_requested := stop_requested ring; force_stop := force_stop ring;
        total_produced := total_produced ring + 1;
        total_consumed := total_consumed ring;
        producer_blocks := producer_blocks ring;
        consumer_blocks := consumer_blocks ring |}, Ret true).

(** One pass of [ring_pop]; [Ret (Some v)] is [true] with [*output = v],
    [Ret None] is [false] with [*output] untouched. *)
Definition ring_pop (ring : Ring) : Ring * outcome (option Z) :=
  if (count ring =? 0) && negb (stop_requested ring) && negb (force_stop ring)
  then
    ({| buffer := buffer ring; head := head ring; tail := tail ring;
        count := count ring;
        stop_requested := stop_requested ring; force_stop := force_stop ring;
        total_produced := total_produced ring;
        total_consumed := total_consumed ring;
        producer_blocks := producer_blocks ring;
        consumer_blocks := consumer_blocks ring + 1 |}, Wait)
  else if (count ring =? 0) && (stop_requested ring || force_stop ring)
  then (ring, Ret None)
  else
    ({| buffer := buffer ring; head := head ring;
        tail := size_t_wrap (tail ring + 1) mod QUEUE_SIZE;
        count := size_t_wrap (count ring - 1);
        stop_requested := stop_requested ring; force_stop := force_stop ring;
        total_produced := total_produced ring;
        total_consumed := total_consumed ring + 1;
        producer_blocks := producer_blocks ring;
        consumer_blocks := consumer_blocks ring |},
     Ret (Some (buffer_at ring (tail ring)))).

Definition ring_shutdown (ring : Ring) : Ring :=
  {| buffer := buffer ring; head := head ring; tail := tail ring;
     count := count ring;
     stop_requested := true; force_stop := force_stop ring;
     total_produced := total_produced ring;
     total_consumed := total_consumed ring;
     producer_blocks := producer_blocks ring;
     consumer_blocks := consumer_blocks ring |}.

Definition ring_force_stop (ring : Ring) : Ring :=
  {| buffer := buffer ring; head := head ring; tail := tail ring;
     count := count ring;
     stop_requested := stop_requested ring; force_stop := true;
     total_produced := total_produced ring;
     total_consumed := total_consumed ring;
     producer_blocks := producer_blocks ring;
     consumer_blocks := consumer_blocks ring |}.

(** The transitions any thread may take on a ring, and what a transition
    lets its caller observe. *)
Inductive ring_op : Type :=
| OpPush (value : Z)
| OpPop
| OpShutdown
| OpForceStop.

Inductive ring_event : Type :=
| EvPush (value : Z) (ok : bool)
| EvPop (out : option Z).

Definition ring_step (ring : Ring) (op : ring_op) : Ring * list ring_event :=
  match op with
  | OpPush value =>
      match ring_push ring value with
      | (ring', Ret ok) => (ring', [EvPush value ok])
      | (ring', Wait) => (ring', [])
      end
  | OpPop =>
      match ring_pop ring with
      | (ring', Ret out) => (ring', [EvPop out])
      | (ring', Wait) => (ring', [])
      end
  | OpShutdown => (ring_shutdown ring, [])
  | OpForceStop => (ring_force_stop ring, [])
  end.

Fixpoint ring_run (ring : Ring) (ops : list ring_op)
  : Ring * list ring_event :=
  match ops with
  | [] => (ring, [])
  | op :: ops' =>
      let '(ring1, ev) := ring_step ring op in
      let '(ring2, evs) := ring_run ring1 ops' in
      (ring2, ev ++ evs)
  end.

(** Values of the successful pushes, resp. pops, in the order they happened. *)
Fixpoint pushed (evs : list ring_event) : list Z :=
  match evs with
  | [] => []
  | EvPush v true :: evs' => v :: pushed evs'
  | _ :: evs' => pushed evs'
  end.

Fixpoint popped (evs : list ring_event) : list Z :=
  match evs with
  | [] => []
  | EvPop (Some v) :: evs' => v :: popped evs'
  | _ :: evs' => popped evs'
  end.

(** Results of all the pushes that returned. *)
Fixpoint push_results (evs : list ring_event) : list bool :=
  match evs with
  | [] => []
  | EvPush _ ok :: evs' => ok :: push_results evs'
  | _ :: evs' => push_results evs'
  end.

(** The items a ring holds, oldest first: [count] cells from [tail] on. *)
Definition ring_contents (ring : Ring) : list Z :=
  map (fun i : nat => buffer_at ring ((tail ring + Z.of_nat i) mod QUEUE_SIZE))
      (seq 0 (Z.to_nat (count ring))).

(** Representation invariant of the circular buffer. *)
Definition ring_wf (ring : Ring) : Prop :=
  length (buffer ring) = Z.to_nat QUEUE_SIZE /\
  0 <= tail ring < QUEUE_SIZE /\
  0 <= count ring <= QUEUE_SIZE /\
  head ring = (tail ring + count ring) mod QUEUE_SIZE.

(** The counters account for the stored items. *)
Definition ring_balanced (ring : Ring) : Prop :=
  0 <= count ring <= QUEUE_SIZE /\
  total_produced ring - total_consumed ring = count ring.

(** A stop flag is up. *)
Definition ring_stopped (ring : Ring) : Prop :=
  stop_requested ring = true \/ force_stop ring = true.

(** [ring_get_stats]: the five values it copies out under the lock. *)
Record RingStats : Type := mkRingStats {
  produced : Z;
  consumed : Z;
  prod_blocks : Z;
  cons_blocks : Z;
  current_size : Z
}.

Definition ring_get_stats (ring : Ring) : RingStats :=
  {| produced := total_produced ring;
     consumed := total_consumed ring;
     prod_blocks := producer_blocks ring;
     cons_blocks := consumer_blocks ring;
     current_size := count ring |}.

(** Arithmetic on [int] as the compiled program performs it: 32 bits, two's
    complement, wrapping round. *)
Definition int_wrap (z : Z) : Z := (z + 2 ^ 31) mod 2 ^ 32 - 2 ^ 31.

(** [args->producer_id * 1000000 + i], the value [producer_thread] pushes
    on its [i]-th round: an [int] product and an [int] sum. *)
Definition producer_value (producer_id i : Z) : Z :=
  int_wrap (int_wrap (producer_id * 1000000) + i).

(** How a thread function running with no other thread on the ring ends:
    it returns, or it sleeps in [pthread_cond_wait] with nobody left to
    signal it. *)
Inductive producer_end : Type :=
| ProducerCompleted
| ProducerStopped (i : Z)
| ProducerBlocked (i : Z).

(** The [for] loop of [producer_thread] from round [i] on, [n] rounds being
    left; the [usleep] between rounds does not touch the ring. *)
Fixpoint producer_loop (n : nat) (i : Z) (producer_id : Z) (ring : Ring)
  : Ring * producer_end :=
  match n with
  | O => (ring, ProducerCompleted)
  | S n' =>
      let value := producer_value producer_id i in
      match ring_push ring value with
      | (ring', Ret true) => producer_loop n' (i + 1) producer_id ring'
      | (ring', Ret false) => (ring', ProducerStopped i)
      | (ring', Wait) => (ring', ProducerBlocked i)
      end
  end.

(** [producer_thread] with [args = {ring, items_to_produce, producer_id, _}],
    no other thread acting on the ring meanwhile. *)
Definition producer_thread (ring : Ring) (items_to_produce producer_id : Z)
  : Ring * producer_end :=
  producer_loop (Z.to_nat items_to_produce) 0 producer_id ring.

Inductive consumer_end : Type :=
| ConsumerDrained
| ConsumerPoisoned
| ConsumerBlocked.

(** The [while (ring_pop(args->ring, &value))] loop of [consumer_thread];
    [None] when [fuel] rounds were not enough to see it end. *)
Fixpoint consumer_loop (fuel : nat) (ring : Ring) (items_consumed : Z)
  : option (Ring * Z * consumer_end) :=
  match fuel with
  | O => None
  | S fuel' =>
      match ring_pop ring with
      | (ring', Ret (Some value)) =>
          let items_consumed := items_consumed + 1 in
          if value =? POISON_PILL
          then Some (ring', items_consumed, ConsumerPoisoned)
          else consumer_loop fuel' ring' items_consumed
      | (ring', Ret None) => Some (ring', items_consumed, ConsumerDrained)
      | (ring', Wait) => Some (ring', items_consumed, ConsumerBlocked)
      end
  end.

(** [consumer_thread], no other thread acting on the ring meanwhile: every
    round but the last takes an item out, so one round more than the items
    stored is enough. *)
Definition consumer_thread (ring : Ring)
  : option (Ring * Z * consumer_end) :=
  consumer_loop (S (Z.to_nat (count ring))) ring 0.

(** The front of a list of values up to and including the first
    [POISON_PILL]. *)
Fixpoint until_pill (values : list Z) : list Z :=
  match values with
  | [] => []
  | v :: values' =>
      if v =? POISON_PILL then [v] else v :: until_pill values'
  end.

Definition has_pill (values : list Z) : bool :=
  existsb (fun v => v =? POISON_PILL) values.

(** What [consumer_thread] ends with on a ring holding [values]. *)
Definition consumer_verdict (ring : Ring) (values : list Z) : consumer_end :=
  if has_pill values then ConsumerPoisoned
  else if stop_requested ring || force_stop ring then ConsumerDrained
  else ConsumerBlocked.

(** Two rings that differ in nothing but which of the two stop flags is
    up. *)
Definition same_but_flags (r1 r2 : Ring) : Prop :=
  buffer r1 = buffer r2 /\ head r1 = head r2 /\ tail r1 = tail r2 /\
  count r1 = count r2 /\
  total_produced r1 = total_produced r2 /\
  total_consumed r1 = total_consumed r2 /\
  producer_blocks r1 = producer_blocks r2 /\
  consumer_blocks r1 = consumer_blocks r2 /\
  stop_requested r1 || force_stop r1 = stop_requested r2 || force_stop r2.

End P2.

(* ====================================================================== *)
(** ** p5_pipeline.cpp *)
(* ====================================================================== *)

Module P5.

Definition DEFAULT_TICKS : Z := 1000.
Definition BUFFER_SIZE : Z := 100.
Definition DATA_RANGE : Z := 10000.

(** Integer to [double] conversion: exact on the range of [int], rounded to
    the nearest [double] above 2^53 (clock differences are 64-bit). *)
Definition float_of_int (z : Z) : float :=
  if z <? 0 then PrimFloat.opp (PrimFloat.of_uint63 (Uint63.of_Z (- z)))
  else PrimFloat.of_uint63 (Uint63.of_Z z).

(** [struct DataItem]; [timestamp] is a [steady_clock::time_point], kept as
    its tick count (nanoseconds). *)
Record DataItem : Type := mkDataItem {
  id : Z;
  raw_value : Z;
  processed_value : float;
  is_valid : bool;
  timestamp : Z
}.

(** [DataItem()] *)
Definition DataItem_default : DataItem :=
  {| id := -1; raw_value := 0; processed_value := 0%float;
     is_valid := false; timestamp := 0 |}.

(** [DataItem(_id, _val)], built while the steady clock reads [now]. *)
Definition DataItem_new (_id _val now : Z) : DataItem :=
  {| id := _id; raw_value := _val; processed_value := 0%float;
     is_valid := false; timestamp := now |}.

Definition set_processed_value (item : DataItem) (v : float) : DataItem :=
  {| id := id item; raw_value := raw_value item; processed_value := v;
     is_valid := is_valid item; timestamp := timestamp item |}.

Definition set_is_valid (item : DataItem) (b : bool) : DataItem :=
  {| id := id item; raw_value := raw_value item;
     processed_value := processed_value item;
     is_valid := b; timestamp := timestamp item |}.

(** [struct PipelineStats] (its mutex serialises the updates below). *)
Record PipelineStats : Type := mkStats {
  items_generated : Z;
  items_processed : Z;
  items_filtered : Z;
  barrier_waits : Z;
  total_latency_ms : float
}.

(** [PipelineStats{}] *)
Definition PipelineStats_new : PipelineStats :=
  {| items_generated := 0; items_processed := 0; items_filtered := 0;
     barrier_waits := 0; total_latency_ms := 0%float |}.

Definition add_latency (s : PipelineStats) (latency_ms : float)
  : PipelineStats :=
  {| items_generated := items_generated s;
     items_processed := items_processed s;
     items_filtered := items_filtered s;
     barrier_waits := barrier_waits s;
     total_latency_ms := PrimFloat.add (total_latency_ms s) latency_ms |}.

Definition incr_items_generated (s : PipelineStats) : PipelineStats :=
  {| items_generated := items_generated s + 1;
     items_processed := items_processed s;
     items_filtered := items_filtered s;
     barrier_waits := barrier_waits s;
     total_latency_ms := total_latency_ms s |}.

Definition incr_items_processed (s : PipelineStats) : PipelineStats :=
  {| items_generated := items_generated s;
     items_processed := items_processed s + 1;
     items_filtered := items_filtered s;
     barrier_waits := barrier_waits s;
     total_latency_ms := total_latency_ms s |}.

Definition incr_items_filtered (s : PipelineStats) : PipelineStats :=
  {| items_generated := items_generated s;
     items_processed := items_processed s;
     items_filtered := items_filtered s + 1;
     barrier_waits := barrier_waits s;
     total_latency_ms := total_latency_ms s |}.

Definition incr_barrier_waits (s : PipelineStats) : PipelineStats :=
  {| items_generated := items_generated s;
     items_processed := items_processed s;
     items_filtered := items_filtered s;
     barrier_waits := barrier_waits s + 1;
     total_latency_ms := total_latency_ms s |}.

(** The file-level variables the stages share: the two [std::queue]s, the
    shutdown flag and the statistics block. *)
Record Globals : Type := mkGlobals {
  stage1_to_stage2 : list DataItem;
  stage2_to_stage3 : list DataItem;
  pipeline_shutdown : bool;
  pipeline_stats : PipelineStats
}.

(** State of the globals when the program starts. *)
Definition program_start : Globals :=
  {| stage1_to_stage2 := []; stage2_to_stage3 := [];
     pipeline_shutdown := false; pipeline_stats := PipelineStats_new |}.

Definition with_buffer1 (g : Globals) (q : list DataItem) : Globals :=
  {| stage1_to_stage2 := q; stage2_to_stage3 := stage2_to_stage3 g;
     pipeline_shutdown := pipeline_shutdown g;
     pipeline_stats := pipeline_stats g |}.

Definition with_buffer2 (g : Globals) (q : list DataItem) : Globals :=
  {| stage1_to_stage2 := stage1_to_stage2 g; stage2_to_stage3 := q;
     pipeline_shutdown := pipeline_shutdown g;
     pipeline_stats := pipeline_stats g |}.

Definition with_stats (g : Globals) (s : PipelineStats) : Globals :=
  {| stage1_to_stage2 := stage1_to_stage2 g;
     stage2_to_stage3 := stage2_to_stage3 g;
     pipeline_shutdown := pipeline_shutdown g;
     pipeline_stats := s |}.

(** How a [pthread_cond_timedwait] came back: with 0, or with an error
    (the deadline passed). *)
Inductive wake : Type := Signalled | TimedOut.

(** The lock-protected text that [push_to_buffer1] and [push_to_buffer2]
    have in common, on the queue [q] they guard: test the loop condition;
    wait, fail on shutdown, or append. *)
Definition timed_push (q : list DataItem) (shutdown : bool) (item : DataItem)
  : list DataItem * outcome bool :=
  if (Z.of_nat (length q) >=? BUFFER_SIZE) && negb shutdown then (q, Wait)
  else if shutdown then (q, Ret false)
  else (q ++ [item], Ret true).

(** [std::queue::empty] *)
Definition queue_empty (q : list DataItem) : bool :=
  match q with
  | [] => true
  | _ :: _ => false
  end.

(** Likewise for [pop_from_buffer1] and [pop_from_buffer2]: wait while the
    queue is empty and no shutdown is seen; then fail if it is still empty,
    else take the front. *)
Definition timed_pop (q : list DataItem) (shutdown : bool)
  : list DataItem * outcome (option DataItem) :=
  if queue_empty q && negb shutdown then (q, Wait)
  else
    match q with
    | [] => (q, Ret None)
    | item :: q' => (q', Ret (Some item))
    end.

Definition push_to_buffer1 (g : Globals) (item : DataItem)
  : Globals * outcome bool :=
  let '(q, r) := timed_push (stage1_to_stage2 g) (pipeline_shutdown g) item in
  (with_buffer1 g q, r).

Definition pop_from_buffer1 (g : Globals)
  : Globals * outcome (option DataItem) :=
  let '(q, r) := timed_pop (stage1_to_stage2 g) (pipeline_shutdown g) in
  (with_buffer1 g q, r).

Definition push_to_buffer2 (g : Globals) (item : DataItem)
  : Globals * outcome bool :=
  let '(q, r) := timed_push (stage2_to_stage3 g) (pipeline_shutdown g) item in
  (with_buffer2 g q, r).

Definition pop_from_buffer2 (g : Globals)
  : Globals * outcome (option DataItem) :=
  let '(q, r) := timed_pop (stage2_to_stage3 g) (pipeline_shutdown g) in
  (with_buffer2 g q, r).

(** The pass that follows a return of [pthread_cond_timedwait] inside the
    loop: an error return leaves the call at once with [false]; a return
    of 0 goes round the loop, which is the entry pass again. *)
Definition push_to_buffer1_resume (w : wake) (g : Globals) (item : DataItem)
  : Globals * outcome bool :=
  match w with
  | TimedOut => (g, Ret false)
  | Signalled => push_to_buffer1 g item
  end.

Definition pop_from_buffer1_resume (w : wake) (g : Globals)
  : Globals * outcome (option DataItem) :=
  match w with
  | TimedOut => (g, Ret None)
  | Signalled => pop_from_buffer1 g
  end.

Definition push_to_buffer2_resume (w : wake) (g : Globals) (item : DataItem)
  : Globals * outcome bool :=
  match w with
  | TimedOut => (g, Ret false)
  | Signalled => push_to_buffer2 g item
  end.

Definition pop_from_buffer2_resume (w : wake) (g : Globals)
  : Globals * outcome (option DataItem) :=
  match w with
  | TimedOut => (g, Ret None)
  | Signalled => pop_from_buffer2 g
  end.

Definition request_pipeline_shutdown (g : Globals) : Globals :=
  {| stage1_to_stage2 := stage1_to_stage2 g;
     stage2_to_stage3 := stage2_to_stage3 g;
     pipeline_shutdown := true;
     pipeline_stats := pipeline_stats g |}.

(** Transitions on the two buffers, and what their callers observe. *)
Inductive pipe_op : Type :=
| Push1 (item : DataItem)
| Push1Resume (w : wake) (item : DataItem)
| Pop1
| Pop1Resume (w : wake)
| Push2 (item : DataItem)
| Push2Resume (w : wake) (item : DataItem)
| Pop2
| Pop2Resume (w : wake)
| RequestShutdown.

Inductive pipe_event : Type :=
| EvPush1 (item : DataItem) (ok : bool)
| EvPop1 (out : option DataItem)
| EvPush2 (item : DataItem) (ok : bool)
| EvPop2 (out : option DataItem).

Definition observe {A : Type} (ev : A -> pipe_event)
  (r : Globals * outcome A) : Globals * list pipe_event :=
  match r with
  | (g, Ret a) => (g, [ev a])
  | (g, Wait) => (g, [])
  end.

Definition pipe_step (g : Globals) (op : pipe_op)
  : Globals * list pipe_event :=
  match op with
  | Push1 item => observe (EvPush1 item) (push_to_buffer1 g item)
  | Push1Resume w item =>
      observe (EvPush1 item) (push_to_buffer1_resume w g item)
  | Pop1 => observe EvPop1 (pop_from_buffer1 g)
  | Pop1Resume w => observe EvPop1 (pop_from_buffer1_resume w g)
  | Push2 item => observe (EvPush2 item) (push_to_buffer2 g item)
  | Push2Resume w item =>
      observe (EvPush2 item) (push_to_buffer2_resume w g item)
  | Pop2 => observe EvPop2 (pop_from_buffer2 g)
  | Pop2Resume w => observe EvPop2 (pop_from_buffer2_resume w g)
  | RequestShutdown => (request_pipeline_shutdown g, [])
  end.

Fixpoint pipe_run (g : Globals) (ops : list pipe_op)
  : Globals * list pipe_event :=
  match ops with
  | [] => (g, [])
  | op :: ops' =>
      let '(g1, ev) := pipe_step g op in
      let '(g2, evs) := pipe_run g1 ops' in
      (g2, ev ++ evs)
  end.

Fixpoint pushed1 (evs : list pipe_event) : list DataItem :=
  match evs with
  | [] => []
  | EvPush1 item true :: evs' => item :: pushed1 evs'
  | _ :: evs' => pushed1 evs'
  end.

Fixpoint popped1 (evs : list pipe_event) : list DataItem :=
  match evs with
  | [] => []
  | EvPop1 (Some item) :: evs' => item :: popped1 evs'
  | _ :: evs' => popped1 evs'
  end.

Fixpoint pushed2 (evs : list pipe_event) : list DataItem :=
  match evs with
  | [] => []
  | EvPush2 item true :: evs' => item :: pushed2 evs'
  | _ :: evs' => pushed2 evs'
  end.

Fixpoint popped2 (evs : list pipe_event) : list DataItem :=
  match evs with
  | [] => []
  | EvPop2 (Some item) :: evs' => item :: popped2 evs'
  | _ :: evs' => popped2 evs'
  end.

(** Results of every push, on either buffer, that returned. *)
Fixpoint pipe_push_results (evs : list pipe_event) : list bool :=
  match evs with
  | [] => []
  | EvPush1 _ ok :: evs' => ok :: pipe_push_results evs'
  | EvPush2 _ ok :: evs' => ok :: pipe_push_results evs'
  | _ :: evs' => pipe_push_results evs'
  end.

(** A whole [push_to_buffer1] call made while no other thread touches the
    buffer or the flag: if the entry pass has to wait, nothing can end the
    wait but the deadline. *)
Definition push_to_buffer1_alone (g : Globals) (item : DataItem)
  : Globals * bool :=
  match push_to_buffer1 g item with
  | (g', Ret ok) => (g', ok)
  | (g', Wait) =>
      match push_to_buffer1_resume TimedOut g' item with
      | (g'', Ret ok) => (g'', ok)
      | (g'', Wait) => (g'', false)
      end
  end.

Definition pop_from_buffer1_alone (g : Globals)
  : Globals * option DataItem :=
  match pop_from_buffer1 g with
  | (g', Ret out) => (g', out)
  | (g', Wait) =>
      match pop_from_buffer1_resume TimedOut g' with
      | (g'', Ret out) => (g'', out)
      | (g'', Wait) => (g'', None)
      end
  end.

Definition push_to_buffer2_alone (g : Globals) (item : DataItem)
  : Globals * bool :=
  match push_to_buffer2 g item with
  | (g', Ret ok) => (g', ok)
  | (g', Wait) =>
      match push_to_buffer2_resume TimedOut g' item with
      | (g'', Ret ok) => (g'', ok)
      | (g'', Wait) => (g'', false)
      end
  end.

Definition pop_from_buffer2_alone (g : Globals)
  : Globals * option DataItem :=
  match pop_from_buffer2 g with
  | (g', Ret out) => (g', out)
  | (g', Wait) =>
      match pop_from_buffer2_resume TimedOut g' with
      | (g'', Ret out) => (g'', out)
      | (g'', Wait) => (g'', None)
      end
  end.

(** A producer pushing a list of items one call after the other, with no
    consumer; it stops at the first failure, as [stage_generator] does. *)
Fixpoint produce_alone (g : Globals) (items : list DataItem)
  : Globals * list bool :=
  match items with
  | [] => (g, [])
  | item :: items' =>
      match push_to_buffer1_alone g item with
      | (g', true) =>
          let '(g'', oks) := produce_alone g' items' in (g'', true :: oks)
      | (g', false) => (g', [false])
      end
  end.

(** What the stages take from outside this file: the draws of
    [value_dist( *global_rng )], the readings of [steady_clock::now()] when
    the item of a tick is built and when it is filtered, and the [<cmath>]
    functions [log], [sin] and [cos].  ([sqrt] and [fabs] are the IEEE
    operations [PrimFloat.sqrt] and [PrimFloat.abs].) *)
Record Platform : Type := mkPlatform {
  rng_draw : Z -> Z;
  clock_stage1 : Z -> Z;
  clock_stage3 : Z -> Z;
  libm_log : float -> float;
  libm_sin : float -> float;
  libm_cos : float -> float
}.

Section Stages.

Context (P : Platform).

(** [lookup_table[i]] as [init_shared_resources] fills it. *)
Definition lookup_table (i : Z) : float :=
  let x := PrimFloat.mul (float_of_int i) 0.001%float in
  PrimFloat.sqrt
    (PrimFloat.add (PrimFloat.mul (libm_sin P x) (libm_sin P x))
                   (PrimFloat.mul (libm_cos P x) (libm_cos P x))).

(** The busy loop of [stage_processor]:
    [for (i = 0; i < 1000; i++) temp += sqrt(i + item.raw_value)]. *)
Definition busy_sum (raw : Z) : float :=
  fold_left
    (fun temp i =>
       PrimFloat.add temp (PrimFloat.sqrt (float_of_int (Z.of_nat i + raw))))
    (seq 0 1000) 0%float.

(** What [stage_processor] does to the item it popped: four assignments to
    [processed_value], and to nothing else. *)
Definition process_item (item : DataItem) : DataItem :=
  let base_value := lookup_table (Z.rem (raw_value item) DATA_RANGE) in
  let item := set_processed_value item
    (PrimFloat.mul base_value
       (libm_log P (float_of_int (raw_value item + 1)))) in
  let item := set_processed_value item
    (PrimFloat.add (processed_value item)
       (PrimFloat.mul
          (libm_sin P (PrimFloat.mul (float_of_int (raw_value item))
                                     0.01%float))
          (libm_cos P (PrimFloat.mul (float_of_int (id item))
                                     0.02%float)))) in
  let item := set_processed_value item
    (PrimFloat.abs (processed_value item)) in
  let temp := busy_sum (raw_value item) in
  set_processed_value item
    (PrimFloat.add (processed_value item) (PrimFloat.mul temp 1e-6%float)).

End Stages.

(** The three nested criteria of [stage_filter_reduce]; [%] on [int] is the
    truncating remainder [Z.rem]. *)
Definition passes_filter (item : DataItem) : bool :=
  if PrimFloat.ltb 0.1%float (processed_value item)
     && PrimFloat.ltb (processed_value item) 100%float
  then
    if negb (Z.rem (id item) 13 =? 0)
    then
      if (Z.rem (raw_value item) 3 =? 0) || (Z.rem (raw_value item) 7 =? 0)
      then true
      else false
    else false
  else false.

(** [duration<double, std::milli>(now - item.timestamp).count()]: the tick
    difference as a [double], divided by the ticks in a millisecond. *)
Definition latency_ms (now ts : Z) : float :=
  PrimFloat.div (float_of_int (now - ts)) 1000000%float.

(** The variables local to [stage_filter_reduce]. *)
Record FilterLocals : Type := mkFilterLocals {
  filtered_count : Z;
  accumulated_result : float
}.

(** What [stage_filter_reduce] does with the item it popped, up to the
    statistics update: [now] is read only on the passing branch. *)
Definition filter_item (now : Z) (item : DataItem) (loc : FilterLocals)
  (stats : PipelineStats) : DataItem * FilterLocals * PipelineStats :=
  let '(item1, loc1, stats1) :=
    if passes_filter item
    then
      (set_is_valid item true,
       {| filtered_count := filtered_count loc + 1;
          accumulated_result :=
            PrimFloat.add (accumulated_result loc) (processed_value item) |},
       add_latency stats (latency_ms now (timestamp item)))
    else (set_is_valid item false, loc, stats) in
  let stats2 :=
    if is_valid item1 then incr_items_filtered stats1 else stats1 in
  (item1, loc1, stats2).

(** The three stage threads in lock step.  The barrier lets no stage start
    tick k+1 before all three have finished tick k, and inside a tick the
    processor can only pop what the generator has pushed and the filter what
    the processor has pushed; so, when no wait runs into its deadline, the
    queue accesses of a tick happen in the order generator, processor,
    filter.  [PipelineState] holds the globals and the loop-local variables
    of stages 2 and 3. *)
Record PipelineState : Type := mkPipelineState {
  globals : Globals;
  processed_count : Z;
  item_stage2 : DataItem;
  locals_stage3 : FilterLocals;
  item_stage3 : DataItem
}.

Definition with_globals (st : PipelineState) (g : Globals) : PipelineState :=
  {| globals := g; processed_count := processed_count st;
     item_stage2 := item_stage2 st;
     locals_stage3 := locals_stage3 st; item_stage3 := item_stage3 st |}.

Definition bump (f : PipelineStats -> PipelineStats) (g : Globals) : Globals :=
  with_stats g (f (pipeline_stats g)).

Section Run.

Context (P : Platform).

(** Loop body of [stage_generator] for one [tick]; [false] is [break]. *)
Definition stage_generator_body (tick : Z) (st : PipelineState)
  : PipelineState * bool :=
  let raw_value := rng_draw P tick in
  let item := DataItem_new tick raw_value (clock_stage1 P tick) in
  match push_to_buffer1_alone (globals st) item with
  | (g, false) => (with_globals st g, false)
  | (g, true) =>
      let g := bump incr_items_generated g in
      let g := bump incr_barrier_waits g in
      (with_globals st g, true)
  end.

(** Loop body of [stage_processor]. *)
Definition stage_processor_body (st : PipelineState)
  : PipelineState * bool :=
  match pop_from_buffer1_alone (globals st) with
  | (g, None) =>
      ({| globals := g; processed_count := processed_count st;
          item_stage2 := DataItem_default;
          locals_stage3 := locals_stage3 st;
          item_stage3 := item_stage3 st |}, false)
  | (g, Some item) =>
      let item := process_item P item in
      let count := processed_count st + 1 in
      match push_to_buffer2_alone g item with
      | (g, false) =>
          ({| globals := g; processed_count := count; item_stage2 := item;
              locals_stage3 := locals_stage3 st;
              item_stage3 := item_stage3 st |}, false)
      | (g, true) =>
          let g := bump incr_items_processed g in
          let g := bump incr_barrier_waits g in
          ({| globals := g; processed_count := count; item_stage2 := item;
              locals_stage3 := locals_stage3 st;
              item_stage3 := item_stage3 st |}, true)
      end
  end.

(** Loop body of [stage_filter_reduce] for one [tick]. *)
Definition stage_filter_reduce_body (tick : Z) (st : PipelineState)
  : PipelineState * bool :=
  match pop_from_buffer2_alone (globals st) with
  | (g, None) =>
      ({| globals := g; processed_count := processed_count st;
          item_stage2 := item_stage2 st;
          locals_stage3 := locals_stage3 st;
          item_stage3 := DataItem_default |}, false)
  | (g, Some item) =>
      let '(item, loc, stats) :=
        filter_item (clock_stage3 P tick) item (locals_stage3 st)
                    (pipeline_stats g) in
      let g := with_stats g stats in
      let g := bump incr_barrier_waits g in
      ({| globals := g; processed_count := processed_count st;
          item_stage2 := item_stage2 st;
          locals_stage3 := loc; item_stage3 := item |}, true)
  end.

(** One tick of the three stages; [false] as soon as one of them leaves its
    loop (the others then run into their deadlines or stay at the barrier,
    which is outside the lock-step regime described here). *)
Definition pipeline_tick (tick : Z) (st : PipelineState)
  : PipelineState * bool :=
  match stage_generator_body tick st with
  | (st1, false) => (st1, false)
  | (st1, true) =>
      match stage_processor_body st1 with
      | (st2, false) => (st2, false)
      | (st2, true) => stage_filter_reduce_body tick st2
      end
  end.

(** The [for (tick = ...; tick < DEFAULT_TICKS; tick++)] loops, [n] ticks
    being left to run. *)
Fixpoint run_ticks (n : nat) (tick : Z) (st : PipelineState)
  : PipelineState :=
  match n with
  | O => st
  | S n' =>
      match pipeline_tick tick st with
      | (st', true) => run_ticks n' (tick + 1) st'
      | (st', false) => st'
      end
  end.

(** The three stage functions, started together: each loops
    [DEFAULT_TICKS] times ([int ticks = DEFAULT_TICKS] in the generator,
    the constant itself in the loop headers of the other two). *)
Definition run_stages (g : Globals) : PipelineState :=
  run_ticks (Z.to_nat DEFAULT_TICKS) 0
    {| globals := g; processed_count := 0;
       item_stage2 := DataItem_default;
       locals_stage3 :=
         {| filtered_count := 0; accumulated_result := 0%float |};
       item_stage3 := DataItem_default |}.

(** [run_pipeline_benchmark(num_ticks)]: [num_ticks] is printed and not
    used otherwise; the flag and the statistics are reset, the stages are
    started and joined, and the statistics are what is reported. *)
Definition run_pipeline_benchmark (num_ticks : Z) (g : Globals)
  : PipelineState :=
  let g :=
    {| stage1_to_stage2 := stage1_to_stage2 g;
       stage2_to_stage3 := stage2_to_stage3 g;
       pipeline_shutdown := false;
       pipeline_stats := PipelineStats_new |} in
  run_stages g.

End Run.

(** Both buffers within their capacity. *)
Definition buffers_bounded (g : Globals) : Prop :=
  Z.of_nat (length (stage1_to_stage2 g)) <= BUFFER_SIZE /\
  Z.of_nat (length (stage2_to_stage3 g)) <= BUFFER_SIZE.

(** A tick starts clean when both buffers are empty and no shutdown has
    been requested. *)
Definition clean (g : Globals) : Prop :=
  stage1_to_stage2 g = [] /\ stage2_to_stage3 g = [] /\
  pipeline_shutdown g = false.

(** A platform to run the model on: an affine stream of draws, a clock that
    advances a millisecond per tick, and stand-ins for the [<cmath>]
    functions. *)
Definition sample_platform : Platform :=
  {| rng_draw := fun tick => 21 + 3 * tick;
     clock_stage1 := fun tick => 1000000 * tick;
     clock_stage3 := fun tick => 1000000 * tick + 250000;
     libm_log := fun x => PrimFloat.sqrt x;
     libm_sin := fun x => PrimFloat.div x 2%float;
     libm_cos := fun x => PrimFloat.sub 1%float x |}.

Definition sample_state : PipelineState :=
  {| globals := program_start; processed_count := 0;
     item_stage2 := DataItem_default;
     locals_stage3 :=
       {| filtered_count := 0; accumulated_result := 0%float |};
     item_stage3 := DataItem_default |}.

(** [struct timespec] *)
Record timespec : Type := mkTimespec {
  tv_sec : Z;
  tv_nsec : Z
}.

(** The deadline computed at the top of the four buffer functions from the
    reading [now] of [clock_gettime(CLOCK_REALTIME, ...)]; [/] and [%] on
    [int] truncate towards zero. *)
Definition abs_timeout (now : timespec) (timeout_ms : Z) : timespec :=
  let sec := tv_sec now + Z.quot timeout_ms 1000 in
  let nsec := tv_nsec now + Z.rem timeout_ms 1000 * 1000000 in
  if nsec >=? 1000000000
  then {| tv_sec := sec + 1; tv_nsec := nsec - 1000000000 |}
  else {| tv_sec := sec; tv_nsec := nsec |}.

(** A time as a count of nanoseconds. *)
Definition timespec_ns (t : timespec) : Z :=
  tv_sec t * 1000000000 + tv_nsec t.

(** The item of tick [k] as it leaves the processing stage. *)
Definition tick_item (P : Platform) (k : Z) : DataItem :=
  process_item P (DataItem_new k (rng_draw P k) (clock_stage1 P k)).

(** The items of the [n] ticks from [tick] on that pass the filter, in tick
    order. *)
Definition passing_items (P : Platform) (n : nat) (tick : Z)
  : list DataItem :=
  List.filter passes_filter
    (map (fun i : nat => tick_item P (tick + Z.of_nat i)) (seq 0 n)).

(** Left-to-right floating-point sum, starting from [init]. *)
Definition float_sum (init : float) (values : list float) : float :=
  fold_left PrimFloat.add values init.

(** The lock-protected text of [push_to_buffer1] and [push_to_buffer2]
    again, with the constant [BUFFER_SIZE] of the loop condition turned into
    the parameter [capacity]; [timed_push] is its instance at
    [BUFFER_SIZE]. *)
Definition timed_push_with (capacity : Z) (q : list DataItem)
  (shutdown : bool) (item : DataItem) : list DataItem * outcome bool :=
  if (Z.of_nat (length q) >=? capacity) && negb shutdown then (q, Wait)
  else if shutdown then (q, Ret false)
  else (q ++ [item], Ret true).

(** The pass after [pthread_cond_timedwait] has come back, as in
    [push_to_buffer1_resume]. *)
Definition timed_push_resume_with (w : wake) (capacity : Z)
  (q : list DataItem) (shutdown : bool) (item : DataItem)
  : list DataItem * outcome bool :=
  match w with
  | TimedOut => (q, Ret false)
  | Signalled => timed_push_with capacity q shutdown item
  end.

(** A whole push call on a queue nobody else touches, as
    [push_to_buffer1_alone]: a wait can only end by the deadline. *)
Definition timed_push_alone_with (capacity : Z) (q : list DataItem)
  (shutdown : bool) (item : DataItem) : list DataItem * bool :=
  match timed_push_with capacity q shutdown item with
  | (q', Ret ok) => (q', ok)
  | (q', Wait) =>
      match timed_push_resume_with TimedOut capacity q' shutdown item with
      | (q'', Ret ok) => (q'', ok)
      | (q'', Wait) => (q'', false)
      end
  end.

(** A producer pushing [items] one call after the other with no consumer,
    every push call to its end (the producer of the boundary scenario does
    not stop at a failure). *)
Fixpoint push_all_alone_with (capacity : Z) (q : list DataItem)
  (shutdown : bool) (items : list DataItem) : list DataItem * list bool :=
  match items with
  | [] => (q, [])
  | item :: items' =>
      let '(q', ok) := timed_push_alone_with capacity q shutdown item in
      let '(q'', oks) := push_all_alone_with capacity q' shutdown items' in
      (q'', ok :: oks)
  end.



(** The three messages of the balance analysis that ends
    [run_pipeline_benchmark]. *)
Inductive balance : Type :=
| ProcessorBottleneck
| FilterBottleneck
| WellBalanced.

Definition balance_analysis (s : PipelineStats) : balance :=
  if items_generated s >? items_processed s + 50 then ProcessorBottleneck
  else if items_processed s >? items_filtered s + 50 then FilterBottleneck
  else WellBalanced.

(** How many of the [n] ticks from [tick] on carry an id that the filter's
    second criterion lets through. *)
Fixpoint eligible_ids (n : nat) (tick : Z) : Z :=
  match n with
  | O => 0
  | S n' =>
      (if Z.rem tick 13 =? 0 then 0 else 1) + eligible_ids n' (tick + 1)
  end.

End P5.

(* ====================================================================== *)
(** ** Properties of the ring buffer *)
(* ====================================================================== *)

Module P2Facts.
Import P2.

Ltac ring_cases :=
  repeat match goal with
         | |- context [if ?b then _ else _] => destruct b eqn:?
         end.

(** *** Running the model *)

Example ring_run_small :
  snd (ring_run (ring_init (fun _ => 77))
         [OpPush 10; OpPush 20; OpPop; OpPush 30; OpPop; OpPop; OpPop;
          OpShutdown; OpPop; OpPush 5])
  = [EvPush 10 true; EvPush 20 true; EvPop (Some 10); EvPush 30 true;
     EvPop (Some 20); EvPop (Some 30); EvPop None; EvPush 5 false].
Proof. vm_compute. reflexivity. Qed.

(** 1025 pushes with no consumer: 1024 go in, the last one blocks. *)
Example ring_run_full :
  let ring :=
    fst (ring_run (ring_init (fun _ => 77))
           (map (fun k => OpPush (Z.of_nat k)) (seq 0 1025))) in
  (head ring, tail ring, count ring, producer_blocks ring,
   total_produced ring) = (0, 0, 1024, 1, 1024).
Proof. vm_compute. reflexivity. Qed.

(** The indices wrap round the array and the order is kept. *)
Example ring_run_wraps :
  let ring :=
    fst (ring_run (ring_init (fun _ => 77))
           (map (fun k => OpPush (Z.of_nat k)) (seq 0 1024)
            ++ [OpPop; OpPop; OpPush 4000; OpPush 4001])) in
  (head ring, tail ring, count ring) = (2, 2, 1024) /\
  firstn 3 (ring_contents ring) = [2; 3; 4] /\
  skipn 1021 (ring_contents ring) = [1023; 4000; 4001].
Proof. vm_compute. repeat split. Qed.

(** *** Representation invariant and contents *)

Lemma size_t_wrap_small z : 0 <= z < 2 ^ 64 -> size_t_wrap z = z.
Proof. intros H. unfold size_t_wrap. apply Z.mod_small. exact H. Qed.

Lemma slot_distinct t i c :
  0 <= i -> i < c -> c < QUEUE_SIZE ->
  (t + i) mod QUEUE_SIZE <> (t + c) mod QUEUE_SIZE.
Proof.
  unfold QUEUE_SIZE. intros Hi Hic Hc Heq.
  assert (H : (t + c - (t + i)) mod 1024 = 0).
  { rewrite Zminus_mod, Heq, Z.sub_diag. reflexivity. }
  replace (t + c - (t + i)) with (c - i) in H by lia.
  rewrite Z.mod_small in H by lia. lia.
Qed.

Lemma ring_init_wf mem : ring_wf (ring_init mem).
Proof.
  unfold ring_wf, ring_init. cbn [buffer head tail count].
  rewrite length_map, length_seq. unfold QUEUE_SIZE.
  repeat split; lia.
Qed.

Lemma ring_push_wf ring value :
  ring_wf ring -> ring_wf (fst (ring_push ring value)).
Proof.
  intros (Hlen & Htail & Hcount & Hhead). unfold ring_push.
  ring_cases; simpl; unfold ring_wf; simpl;
    try (repeat split; assumption || lia).
  assert (Hc : count ring <> QUEUE_SIZE).
  { intros Hc. rewrite Hc, Z.eqb_refl in *. simpl in *.
    destruct (stop_requested ring), (force_stop ring); simpl in *;
      discriminate. }
  rewrite length_insert.
  assert (Hh : 0 <= head ring < QUEUE_SIZE).
  { rewrite Hhead. apply Z.mod_pos_bound. reflexivity. }
  unfold QUEUE_SIZE in *.
  rewrite !size_t_wrap_small by lia.
  repeat split; try lia.
  rewrite Hhead, Zplus_mod_idemp_l. f_equal. lia.
Qed.

Lemma ring_pop_wf ring :
  ring_wf ring -> ring_wf (fst (ring_pop ring)).
Proof.
  intros (Hlen & Htail & Hcount & Hhead). unfold ring_pop.
  ring_cases; simpl; unfold ring_wf; simpl;
    try (repeat split; assumption || lia).
  assert (Hc : count ring <> 0).
  { intros Hc. rewrite Hc in *. simpl in *.
    destruct (stop_requested ring), (force_stop ring); simpl in *;
      discriminate. }
  unfold QUEUE_SIZE in *.
  rewrite !size_t_wrap_small by lia.
  repeat split; try lia.
  - apply Z.mod_pos_bound. reflexivity.
  - apply Z.mod_pos_bound. reflexivity.
  - rewrite Zplus_mod_idemp_l, Hhead. f_equal. lia.
Qed.

Lemma ring_push_true ring value ring' :
  ring_push ring value = (ring', Ret true) ->
  count ring <> QUEUE_SIZE /\
  stop_requested ring = false /\ force_stop ring = false /\
  buffer ring' = <[Z.to_nat (head ring) := value]> (buffer ring) /\
  tail ring' = tail ring /\
  count ring' = size_t_wrap (count ring + 1).
Proof.
  unfold ring_push. intros H.
  destruct (count ring =? QUEUE_SIZE) eqn:Hc,
           (stop_requested ring), (force_stop ring);
    simpl in H; inversion H; subst; simpl.
  apply Z.eqb_neq in Hc. repeat split; auto.
Qed.

Lemma ring_push_contents ring value ring' :
  ring_wf ring ->
  ring_push ring value = (ring', Ret true) ->
  ring_contents ring' = ring_contents ring ++ [value].
Proof.
  intros (Hlen & Htail & Hcount & Hhead) H.
  apply ring_push_true in H as (Hc & _ & _ & Hb & Ht & Hn).
  assert (Hh : 0 <= head ring < QUEUE_SIZE).
  { rewrite Hhead. apply Z.mod_pos_bound. reflexivity. }
  unfold ring_contents, buffer_at. rewrite Hb, Ht, Hn.
  rewrite size_t_wrap_small by (unfold QUEUE_SIZE in *; lia).
  replace (Z.to_nat (count ring + 1)) with (S (Z.to_nat (count ring))) by lia.
  rewrite seq_S, map_app. simpl. f_equal.
  - apply map_ext_in. intros i Hi. apply in_seq in Hi.
    rewrite list_lookup_insert_ne; [reflexivity|].
    intros Heq. apply Z2Nat.inj in Heq; try lia.
    + rewrite Hhead in Heq. symmetry in Heq. revert Heq.
      apply slot_distinct; lia.
    + apply Z.mod_pos_bound. reflexivity.
  - rewrite Z2Nat.id by lia. rewrite <- Hhead.
    rewrite list_lookup_insert_eq; [reflexivity|].
    rewrite Hlen. lia.
Qed.

Lemma ring_pop_some ring v ring' :
  ring_pop ring = (ring', Ret (Some v)) ->
  count ring <> 0 /\
  v = buffer_at ring (tail ring) /\
  buffer ring' = buffer ring /\
  tail ring' = size_t_wrap (tail ring + 1) mod QUEUE_SIZE /\
  count ring' = size_t_wrap (count ring - 1).
Proof.
  unfold ring_pop. intros H.
  destruct (count ring =? 0) eqn:Hc,
           (stop_requested ring), (force_stop ring);
    simpl in H; inversion H; subst; simpl;
    apply Z.eqb_neq in Hc; repeat split; auto.
Qed.

Lemma ring_pop_contents ring v ring' :
  ring_wf ring ->
  ring_pop ring = (ring', Ret (Some v)) ->
  ring_contents ring = v :: ring_contents ring'.
Proof.
  intros (Hlen & Htail & Hcount & Hhead) H.
  apply ring_pop_some in H as (Hc & Hv & Hb & Ht & Hn).
  unfold ring_contents, buffer_at in *. rewrite Hb, Ht, Hn, Hv.
  rewrite !size_t_wrap_small by (unfold QUEUE_SIZE in *; lia).
  replace (Z.to_nat (count ring)) with (S (Z.to_nat (count ring - 1))) by lia.
  simpl. f_equal.
  - rewrite Z.add_0_r, Z.mod_small by lia. reflexivity.
  - rewrite <- seq_shift, map_map. apply map_ext. intros i.
    rewrite Zplus_mod_idemp_l. do 4 f_equal. lia.
Qed.

(** Whatever a transition returns, the stored items change only by a
    successful push (one more at the back) or a successful pop (one fewer at
    the front). *)
Lemma ring_step_contents ring op ring' evs :
  ring_wf ring ->
  ring_step ring op = (ring', evs) ->
  ring_contents ring ++ pushed evs = popped evs ++ ring_contents ring'.
Proof.
  intros Hwf H. destruct op as [value| | |]; simpl in H.
  - destruct (ring_push ring value) as [r [|[|]]] eqn:Hp;
      inversion H; subst; clear H; simpl.
    + rewrite app_nil_r. unfold ring_push in Hp.
      revert Hp. ring_cases; intros Hp; inversion Hp; reflexivity.
    + symmetry. apply ring_push_contents; assumption.
    + rewrite app_nil_r. unfold ring_push in Hp.
      revert Hp. ring_cases; intros Hp; inversion Hp; reflexivity.
  - destruct (ring_pop ring) as [r [|[v|]]] eqn:Hp;
      inversion H; subst; clear H; simpl.
    + rewrite app_nil_r. unfold ring_pop in Hp.
      revert Hp. ring_cases; intros Hp; inversion Hp; reflexivity.
    + rewrite app_nil_r. apply ring_pop_contents; assumption.
    + rewrite app_nil_r. unfold ring_pop in Hp.
      revert Hp. ring_cases; intros Hp; inversion Hp; reflexivity.
  - inversion H; subst. simpl. rewrite app_nil_r. reflexivity.
  - inversion H; subst. simpl. rewrite app_nil_r. reflexivity.
Qed.

Lemma ring_step_wf ring op :
  ring_wf ring -> ring_wf (fst (ring_step ring op)).
Proof.
  intros Hwf. destruct op as [value| | |]; simpl.
  - pose proof (ring_push_wf ring value Hwf) as H.
    destruct (ring_push ring value) as [r [|ok]]; exact H.
  - pose proof (ring_pop_wf ring Hwf) as H.
    destruct (ring_pop ring) as [r [|out]]; exact H.
  - exact Hwf.
  - exact Hwf.
Qed.

Lemma pushed_app evs1 evs2 : pushed (evs1 ++ evs2) = pushed evs1 ++ pushed evs2.
Proof.
  induction evs1 as [|[v [|]|out] evs1 IH]; simpl; rewrite ?IH; reflexivity.
Qed.

Lemma popped_app evs1 evs2 : popped (evs1 ++ evs2) = popped evs1 ++ popped evs2.
Proof.
  induction evs1 as [|[v ok|[v|]] evs1 IH]; simpl; rewrite ?IH; reflexivity.
Qed.

Lemma ring_run_wf ops : forall ring,
  ring_wf ring -> ring_wf (fst (ring_run ring ops)).
Proof.
  induction ops as [|op ops IH]; intros ring Hwf; simpl; [exact Hwf|].
  pose proof (ring_step_wf ring op Hwf) as H1.
  destruct (ring_step ring op) as [r1 ev]. simpl in H1.
  specialize (IH r1 H1). destruct (ring_run r1 ops) as [r2 evs]. exact IH.
Qed.

Lemma ring_run_contents ops : forall ring ring' evs,
  ring_wf ring ->
  ring_run ring ops = (ring', evs) ->
  ring_contents ring ++ pushed evs = popped evs ++ ring_contents ring'.
Proof.
  induction ops as [|op ops IH]; intros ring ring' evs Hwf H; simpl in H.
  - inversion H; subst. simpl. apply app_nil_r.
  - destruct (ring_step ring op) as [r1 ev] eqn:Hs.
    destruct (ring_run r1 ops) as [r2 evs2] eqn:Hr.
    inversion H; subst; clear H.
    pose proof (ring_step_wf ring op Hwf) as Hwf1. rewrite Hs in Hwf1.
    simpl in Hwf1.
    pose proof (ring_step_contents _ _ _ _ Hwf Hs) as E1.
    pose proof (IH _ _ _ Hwf1 Hr) as E2.
    rewrite pushed_app, popped_app, app_assoc, E1, <- !app_assoc, E2.
    reflexivity.
Qed.

Lemma ring_push_effect ring value :
  0 <= count ring <= QUEUE_SIZE ->
  match ring_push ring value with
  | (ring', Ret true) =>
      count ring < QUEUE_SIZE /\
      count ring' = count ring + 1 /\
      total_produced ring' = total_produced ring + 1 /\
      total_consumed ring' = total_consumed ring
  | (ring', _) =>
      count ring' = count ring /\
      total_produced ring' = total_produced ring /\
      total_consumed ring' = total_consumed ring /\
      buffer ring' = buffer ring /\
      head ring' = head ring /\ tail ring' = tail ring
  end.
Proof.
  intros Hc. unfold ring_push.
  destruct (count ring =? QUEUE_SIZE) eqn:E,
           (stop_requested ring), (force_stop ring); simpl; auto 10.
  apply Z.eqb_neq in E. unfold QUEUE_SIZE in *.
  rewrite size_t_wrap_small by lia. repeat split; lia.
Qed.

Lemma ring_pop_effect ring :
  0 <= count ring <= QUEUE_SIZE ->
  match ring_pop ring with
  | (ring', Ret (Some v)) =>
      0 < count ring /\
      count ring' = count ring - 1 /\
      total_produced ring' = total_produced ring /\
      total_consumed ring' = total_consumed ring + 1
  | (ring', _) =>
      count ring' = count ring /\
      total_produced ring' = total_produced ring /\
      total_consumed ring' = total_consumed ring /\
      buffer ring' = buffer ring /\
      head ring' = head ring /\ tail ring' = tail ring
  end.
Proof.
  intros Hc. unfold ring_pop.
  destruct (count ring =? 0) eqn:E,
           (stop_requested ring), (force_stop ring); simpl; auto 10;
    apply Z.eqb_neq in E; unfold QUEUE_SIZE in *;
    rewrite size_t_wrap_small by lia; repeat split; lia.
Qed.

Lemma ring_step_balanced ring op :
  ring_balanced ring -> ring_balanced (fst (ring_step ring op)).
Proof.
  intros [Hc Hb]. unfold ring_balanced.
  destruct op as [value| | |]; simpl; auto.
  - pose proof (ring_push_effect ring value Hc) as H.
    destruct (ring_push ring value) as [r [|[|]]]; simpl; lia.
  - pose proof (ring_pop_effect ring Hc) as H.
    destruct (ring_pop ring) as [r [|[v|]]]; simpl; lia.
Qed.

Lemma ring_run_balanced ops : forall ring,
  ring_balanced ring -> ring_balanced (fst (ring_run ring ops)).
Proof.
  induction ops as [|op ops IH]; intros ring Hb; simpl; [exact Hb|].
  pose proof (ring_step_balanced ring op Hb) as H1.
  destruct (ring_step ring op) as [r1 ev]. simpl in H1.
  specialize (IH r1 H1). destruct (ring_run r1 ops) as [r2 evs]. exact IH.
Qed.

Lemma ring_init_balanced mem : ring_balanced (ring_init mem).
Proof.
  unfold ring_balanced, ring_init, QUEUE_SIZE.
  cbn [count total_produced total_consumed]. lia.
Qed.

(** The [long] counters never exceed the number of transitions performed, so
    they stay far inside the range of [long] on any run that can happen. *)
Lemma counters_bounded ops : forall ring,
  let ring' := fst (ring_run ring ops) in
  total_produced ring <= total_produced ring'
    <= total_produced ring + Z.of_nat (length ops) /\
  total_consumed ring <= total_consumed ring'
    <= total_consumed ring + Z.of_nat (length ops) /\
  producer_blocks ring <= producer_blocks ring'
    <= producer_blocks ring + Z.of_nat (length ops) /\
  consumer_blocks ring <= consumer_blocks ring'
    <= consumer_blocks ring + Z.of_nat (length ops).
Proof.
  induction ops as [|op ops IH]; intros ring; simpl; [lia|].
  assert (H1 : let r1 := fst (ring_step ring op) in
    total_produced ring <= total_produced r1 <= total_produced ring + 1 /\
    total_consumed ring <= total_consumed r1 <= total_consumed ring + 1 /\
    producer_blocks ring <= producer_blocks r1 <= producer_blocks ring + 1 /\
    consumer_blocks ring <= consumer_blocks r1 <= consumer_blocks ring + 1).
  { destruct op as [value| | |]; simpl; try lia.
    - unfold ring_push. ring_cases; simpl; lia.
    - unfold ring_pop. ring_cases; simpl; lia. }
  destruct (ring_step ring op) as [r1 ev]. simpl in H1.
  specialize (IH r1). destruct (ring_run r1 ops) as [r2 evs].
  simpl in *. lia.
Qed.

Lemma ring_step_stopped ring op :
  ring_stopped ring ->
  ring_stopped (fst (ring_step ring op)) /\
  pushed (snd (ring_step ring op)) = [] /\
  Forall (fun ok => ok = false) (push_results (snd (ring_step ring op))).
Proof.
  unfold ring_stopped. intros Hs.
  destruct op as [value| | |]; simpl; auto.
  - unfold ring_push.
    destruct (stop_requested ring) eqn:E1, (force_stop ring) eqn:E2;
      try (destruct Hs; discriminate);
      rewrite ?andb_false_r; simpl; rewrite ?E1, ?E2;
      repeat split; auto.
  - unfold ring_pop.
    destruct (stop_requested ring) eqn:E1, (force_stop ring) eqn:E2;
      try (destruct Hs; discriminate);
      rewrite ?andb_false_r; simpl;
      destruct (count ring =? 0); simpl; rewrite ?E1, ?E2;
      repeat split; auto.
Qed.

Lemma push_results_app evs1 evs2 :
  push_results (evs1 ++ evs2) = push_results evs1 ++ push_results evs2.
Proof.
  induction evs1 as [|[v ok|out] evs1 IH]; simpl; rewrite ?IH; reflexivity.
Qed.

Lemma ring_run_stopped ops : forall ring,
  ring_stopped ring ->
  pushed (snd (ring_run ring ops)) = [] /\
  Forall (fun ok => ok = false) (push_results (snd (ring_run ring ops))).
Proof.
  induction ops as [|op ops IH]; intros ring Hs; simpl; [auto|].
  destruct (ring_step_stopped ring op Hs) as (H1 & H2 & H3).
  destruct (ring_step ring op) as [r1 ev]. simpl in *.
  destruct (IH r1 H1) as [H4 H5].
  destruct (ring_run r1 ops) as [r2 evs]. simpl in *.
  rewrite pushed_app, push_results_app, H2, H4. split; [reflexivity|].
  apply Forall_app; auto.
Qed.

(** *** Sequences of pushes and of pops *)

Lemma ring_contents_length ring :
  length (ring_contents ring) = Z.to_nat (count ring).
Proof. unfold ring_contents. rewrite length_map, length_seq. reflexivity. Qed.

Lemma ring_pop_nonempty ring :
  count ring <> 0 ->
  exists v, snd (ring_pop ring) = Ret (Some v).
Proof.
  intros Hc. unfold ring_pop.
  assert (E : (count ring =? 0) = false) by (apply Z.eqb_neq; exact Hc).
  rewrite E. simpl. eauto.
Qed.

Lemma ring_pop_flags ring :
  stop_requested (fst (ring_pop ring)) = stop_requested ring /\
  force_stop (fst (ring_pop ring)) = force_stop ring.
Proof. unfold ring_pop. ring_cases; simpl; auto. Qed.

Lemma ring_push_flags ring v :
  stop_requested (fst (ring_push ring v)) = stop_requested ring /\
  force_stop (fst (ring_push ring v)) = force_stop ring.
Proof. unfold ring_push. ring_cases; simpl; auto. Qed.

Lemma ring_run_cons ring op ops :
  ring_run ring (op :: ops)
    = (fst (ring_run (fst (ring_step ring op)) ops),
       snd (ring_step ring op)
         ++ snd (ring_run (fst (ring_step ring op)) ops)).
Proof.
  cbn [ring_run]. destruct (ring_step ring op) as [r1 ev]. cbn [fst snd].
  destruct (ring_run r1 ops) as [r2 evs]. reflexivity.
Qed.

Lemma ring_step_pop ring :
  ring_step ring OpPop
    = (fst (ring_pop ring),
       match snd (ring_pop ring) with
       | Ret out => [EvPop out]
       | Wait => []
       end).
Proof. simpl. destruct (ring_pop ring) as [r [|out]]; reflexivity. Qed.

Lemma ring_push_room ring v :
  stop_requested ring = false -> force_stop ring = false ->
  count ring <> QUEUE_SIZE ->
  snd (ring_push ring v) = Ret true.
Proof.
  intros Hs Hf Hc. unfold ring_push. rewrite Hs, Hf.
  assert (E : (count ring =? QUEUE_SIZE) = false)
    by (apply Z.eqb_neq; exact Hc).
  rewrite E. reflexivity.
Qed.

Lemma ring_step_push ring v :
  ring_step ring (OpPush v)
    = (fst (ring_push ring v),
       match snd (ring_push ring v) with
       | Ret ok => [EvPush v ok]
       | Wait => []
       end).
Proof. simpl. destruct (ring_push ring v) as [r [|ok]]; reflexivity. Qed.

Lemma ring_run_app ops1 : forall ring ops2,
  ring_run ring (ops1 ++ ops2)
    = (fst (ring_run (fst (ring_run ring ops1)) ops2),
       snd (ring_run ring ops1)
         ++ snd (ring_run (fst (ring_run ring ops1)) ops2)).
Proof.
  induction ops1 as [|op ops1 IH]; intros ring ops2.
  - cbn [app ring_run fst snd]. apply surjective_pairing.
  - rewrite <- app_comm_cons, !ring_run_cons, IH. cbn [fst snd].
    rewrite app_assoc. reflexivity.
Qed.

Lemma ring_pushes values : forall ring,
  ring_wf ring ->
  stop_requested ring = false -> force_stop ring = false ->
  count ring + Z.of_nat (length values) <= QUEUE_SIZE ->
  let res := ring_run ring (map OpPush values) in
  snd res = map (fun v => EvPush v true) values /\
  ring_contents (fst res) = ring_contents ring ++ values /\
  ring_wf (fst res) /\
  count (fst res) = count ring + Z.of_nat (length values).
Proof.
  induction values as [|v values IH]; intros ring Hwf Hs Hf Hroom res;
    subst res.
  - cbn. rewrite app_nil_r.
    split; [reflexivity|]. split; [reflexivity|]. split; [exact Hwf|]. lia.
  - cbn [map]. rewrite ring_run_cons, ring_step_push. cbn [fst snd].
    assert (Hc : 0 <= count ring <= QUEUE_SIZE) by apply Hwf.
    cbn [length] in Hroom.
    pose proof (ring_push_room ring v Hs Hf ltac:(lia)) as Hr.
    pose proof (ring_push_wf ring v Hwf) as Hwf1.
    pose proof (ring_push_flags ring v) as [Hs1 Hf1].
    pose proof (ring_push_effect ring v Hc) as He.
    pose proof (ring_push_contents ring v (fst (ring_push ring v)) Hwf) as Hk.
    rewrite Hr in *.
    destruct (ring_push ring v) as [r out]. cbn [fst snd] in *. subst out.
    specialize (Hk eq_refl). destruct He as (_ & Hn & _).
    destruct (IH r Hwf1) as (E1 & E2 & E3 & E4); try congruence; try lia.
    rewrite E1, E2, E4, Hk, Hn, <- app_assoc. cbn [length app].
    split; [reflexivity|]. split; [reflexivity|]. split; [exact E3|]. lia.
Qed.

Lemma ring_pops n : forall ring,
  ring_wf ring ->
  (n <= Z.to_nat (count ring))%nat ->
  let res := ring_run ring (repeat OpPop n) in
  snd res = map (fun v => EvPop (Some v)) (firstn n (ring_contents ring)) /\
  ring_contents (fst res) = skipn n (ring_contents ring).
Proof.
  induction n as [|n IH]; intros ring Hwf Hn res; subst res.
  - cbn. auto.
  - change (repeat OpPop (S n)) with (OpPop :: repeat OpPop n).
    rewrite ring_run_cons, ring_step_pop. cbn [fst snd].
    assert (Hc : count ring <> 0) by lia.
    destruct (ring_pop_nonempty ring Hc) as [v Hv].
    pose proof (ring_pop_wf ring Hwf) as Hwf1.
    assert (Hp : ring_pop ring = (fst (ring_pop ring), Ret (Some v))).
    { rewrite <- Hv. apply surjective_pairing. }
    pose proof (ring_pop_contents ring v _ Hwf Hp) as Hcont.
    apply ring_pop_some in Hp as (_ & _ & _ & _ & Hcnt).
    destruct Hwf as (_ & _ & Hcb & _).
    rewrite size_t_wrap_small in Hcnt by (unfold QUEUE_SIZE in *; lia).
    destruct (IH (fst (ring_pop ring)) Hwf1) as [E1 E2]; [lia|].
    rewrite Hv, E1, E2, Hcont. cbn [firstn skipn map app]. auto.
Qed.

End P2Facts.

(* ====================================================================== *)
(** ** Properties of the pipeline buffers *)
(* ====================================================================== *)

Module P5Facts.
Import P5.

Ltac unfold_buffers :=
  unfold pipe_step, observe,
    push_to_buffer1_resume, pop_from_buffer1_resume,
    push_to_buffer2_resume, pop_from_buffer2_resume,
    push_to_buffer1, pop_from_buffer1, push_to_buffer2, pop_from_buffer2,
    timed_push, timed_pop, queue_empty, request_pipeline_shutdown,
    with_buffer1, with_buffer2 in *.

Ltac split_cases :=
  repeat match goal with
         | |- context [match ?w with Signalled => _ | TimedOut => _ end] =>
             destruct w
         | |- context [if ?b then _ else _] => destruct b eqn:?
         | |- context [match ?q with [] => _ | _ :: _ => _ end] =>
             destruct q eqn:?
         end.

(** *** Running the model *)

Example passes_filter_cases :
  map passes_filter
    [mkDataItem 1 21 5%float false 0;      (* in range, 21 = 3 * 7 *)
     mkDataItem 13 21 5%float false 0;     (* id divisible by 13 *)
     mkDataItem 1 21 0.1%float false 0;    (* not above 0.1 *)
     mkDataItem 1 21 100%float false 0;    (* not below 100 *)
     mkDataItem 1 22 5%float false 0;      (* 22 is no multiple of 3 or 7 *)
     mkDataItem 1 49 99.5%float false 0;   (* multiple of 7 *)
     mkDataItem 1 21 nan false 0]          (* NaN fails both comparisons *)
  = [true; false; false; false; false; true; false].
Proof. vm_compute. reflexivity. Qed.

Example pipeline_tick_sample :
  let st := fst (pipeline_tick sample_platform 1 sample_state) in
  id (item_stage3 st) = 1 /\ raw_value (item_stage3 st) = 24 /\
  is_valid (item_stage3 st) = true /\
  processed_value (item_stage3 st) = processed_value (item_stage2 st) /\
  filtered_count (locals_stage3 st) = 1 /\
  total_latency_ms (pipeline_stats (globals st)) = 0.25%float /\
  barrier_waits (pipeline_stats (globals st)) = 3.
Proof. vm_compute. repeat split. Qed.

Example run_ticks_sample :
  let st := run_ticks sample_platform 5 0 sample_state in
  let s := pipeline_stats (globals st) in
  (items_generated s, items_processed s, items_filtered s, barrier_waits s,
   filtered_count (locals_stage3 st), total_latency_ms s)
  = (5, 5, 4, 15, 4, 1%float).
Proof. vm_compute. reflexivity. Qed.

(** *** The two buffers under arbitrary transitions *)

Ltac norm_tests :=
  unfold BUFFER_SIZE in *;
  repeat match goal with
         | H : _ && true = _ |- _ => rewrite andb_true_r in H
         | H : (_ >=? _) = true |- _ =>
             rewrite Z.geb_leb in H; apply Z.leb_le in H
         | H : (_ >=? _) = false |- _ =>
             rewrite Z.geb_leb in H; apply Z.leb_gt in H
         end.

Lemma pipe_step_bounded g op :
  buffers_bounded g -> buffers_bounded (fst (pipe_step g op)).
Proof.
  unfold buffers_bounded, BUFFER_SIZE. intros [H1 H2].
  destruct g as [q1 q2 sd stats]; simpl in *.
  destruct op; unfold_buffers; simpl; split_cases; simpl in *;
    norm_tests; rewrite ?length_app; simpl; lia.
Qed.

Lemma pipe_run_bounded ops : forall g,
  buffers_bounded g -> buffers_bounded (fst (pipe_run g ops)).
Proof.
  induction ops as [|op ops IH]; intros g Hb; simpl; [exact Hb|].
  pose proof (pipe_step_bounded g op Hb) as H1.
  destruct (pipe_step g op) as [g1 ev]. simpl in H1.
  specialize (IH g1 H1). destruct (pipe_run g1 ops) as [g2 evs]. exact IH.
Qed.

Lemma pipe_step_fifo g op :
  stage1_to_stage2 g ++ pushed1 (snd (pipe_step g op))
    = popped1 (snd (pipe_step g op)) ++ stage1_to_stage2 (fst (pipe_step g op))
  /\
  stage2_to_stage3 g ++ pushed2 (snd (pipe_step g op))
    = popped2 (snd (pipe_step g op)) ++ stage2_to_stage3 (fst (pipe_step g op)).
Proof.
  destruct g as [q1 q2 sd stats]; simpl.
  destruct op; unfold_buffers; simpl; split_cases; simpl;
    rewrite ?app_nil_r; split; congruence.
Qed.

Lemma pushed1_app evs1 evs2 :
  pushed1 (evs1 ++ evs2) = pushed1 evs1 ++ pushed1 evs2.
Proof.
  induction evs1 as [|[i [|]|o|i ok|o] evs1 IH]; simpl; rewrite ?IH;
    reflexivity.
Qed.

Lemma popped1_app evs1 evs2 :
  popped1 (evs1 ++ evs2) = popped1 evs1 ++ popped1 evs2.
Proof.
  induction evs1 as [|[i ok|[o|]|i ok|o] evs1 IH]; simpl; rewrite ?IH;
    reflexivity.
Qed.

Lemma pushed2_app evs1 evs2 :
  pushed2 (evs1 ++ evs2) = pushed2 evs1 ++ pushed2 evs2.
Proof.
  induction evs1 as [|[i ok|o|i [|]|o] evs1 IH]; simpl; rewrite ?IH;
    reflexivity.
Qed.

Lemma popped2_app evs1 evs2 :
  popped2 (evs1 ++ evs2) = popped2 evs1 ++ popped2 evs2.
Proof.
  induction evs1 as [|[i ok|o|i ok|[o|]] evs1 IH]; simpl; rewrite ?IH;
    reflexivity.
Qed.

Lemma pipe_push_results_app evs1 evs2 :
  pipe_push_results (evs1 ++ evs2)
    = pipe_push_results evs1 ++ pipe_push_results evs2.
Proof.
  induction evs1 as [|[i ok|o|i ok|o] evs1 IH]; simpl; rewrite ?IH;
    reflexivity.
Qed.

Lemma pipe_run_fifo ops : forall g,
  stage1_to_stage2 g ++ pushed1 (snd (pipe_run g ops))
    = popped1 (snd (pipe_run g ops)) ++ stage1_to_stage2 (fst (pipe_run g ops))
  /\
  stage2_to_stage3 g ++ pushed2 (snd (pipe_run g ops))
    = popped2 (snd (pipe_run g ops)) ++ stage2_to_stage3 (fst (pipe_run g ops)).
Proof.
  induction ops as [|op ops IH]; intros g; simpl.
  - rewrite !app_nil_r. split; reflexivity.
  - destruct (pipe_step_fifo g op) as [A1 A2].
    destruct (pipe_step g op) as [g1 ev]. simpl in A1, A2.
    destruct (IH g1) as [B1 B2].
    destruct (pipe_run g1 ops) as [g2 evs]. simpl in *.
    rewrite pushed1_app, popped1_app, pushed2_app, popped2_app.
    split.
    + rewrite app_assoc, A1, <- !app_assoc, B1. reflexivity.
    + rewrite app_assoc, A2, <- !app_assoc, B2. reflexivity.
Qed.

Lemma pipe_step_shutdown g op :
  pipeline_shutdown g = true ->
  pipeline_shutdown (fst (pipe_step g op)) = true /\
  Forall (fun ok => ok = false) (pipe_push_results (snd (pipe_step g op))).
Proof.
  destruct g as [q1 q2 sd stats]; simpl. intros ->.
  destruct op; unfold_buffers; simpl; split_cases; simpl;
    split; auto; repeat constructor; discriminate.
Qed.

Lemma pipe_run_shutdown ops : forall g,
  pipeline_shutdown g = true ->
  Forall (fun ok => ok = false) (pipe_push_results (snd (pipe_run g ops))).
Proof.
  induction ops as [|op ops IH]; intros g Hs; simpl; [constructor|].
  destruct (pipe_step_shutdown g op Hs) as [H1 H2].
  destruct (pipe_step g op) as [g1 ev]. simpl in *.
  specialize (IH g1 H1).
  destruct (pipe_run g1 ops) as [g2 evs]. simpl in *.
  rewrite pipe_push_results_app. apply Forall_app; auto.
Qed.

Lemma pushed_none_of_results evs :
  Forall (fun ok => ok = false) (pipe_push_results evs) ->
  pushed1 evs = [] /\ pushed2 evs = [].
Proof.
  induction evs as [|ev evs IH]; simpl; intros H; [auto|].
  destruct ev as [i ok|out|i ok|out]; simpl in *;
    try (inversion H; subst); auto.
Qed.

(** *** A producer with no consumer *)

Lemma push_alone_room g item :
  pipeline_shutdown g = false ->
  Z.of_nat (length (stage1_to_stage2 g)) < BUFFER_SIZE ->
  push_to_buffer1_alone g item
    = (with_buffer1 g (stage1_to_stage2 g ++ [item]), true).
Proof.
  destruct g as [q1 q2 sd stats]; simpl. intros -> Hlen.
  unfold push_to_buffer1_alone. unfold_buffers. simpl.
  destruct (Z.of_nat (length q1) >=? BUFFER_SIZE) eqn:E; norm_tests;
    [lia|]. reflexivity.
Qed.

Lemma push_alone_full g item :
  pipeline_shutdown g = false ->
  BUFFER_SIZE <= Z.of_nat (length (stage1_to_stage2 g)) ->
  push_to_buffer1_alone g item = (g, false).
Proof.
  destruct g as [q1 q2 sd stats]; simpl. intros -> Hlen.
  unfold push_to_buffer1_alone. unfold_buffers. simpl.
  destruct (Z.of_nat (length q1) >=? BUFFER_SIZE) eqn:E; norm_tests;
    [|lia]. reflexivity.
Qed.

Lemma produce_alone_overflow items : forall g,
  pipeline_shutdown g = false ->
  (length (stage1_to_stage2 g) <= Z.to_nat BUFFER_SIZE)%nat ->
  (Z.to_nat BUFFER_SIZE < length (stage1_to_stage2 g) + length items)%nat ->
  let room := (Z.to_nat BUFFER_SIZE - length (stage1_to_stage2 g))%nat in
  produce_alone g items
    = (with_buffer1 g (stage1_to_stage2 g ++ firstn room items),
       repeat true room ++ [false]).
Proof.
  induction items as [|item items IH]; intros g Hsd Hle Hgt room.
  - simpl in Hgt. lia.
  - simpl. destruct (Nat.eq_dec (length (stage1_to_stage2 g))
                               (Z.to_nat BUFFER_SIZE)) as [Hfull|Hroom].
    + rewrite push_alone_full by (assumption || unfold BUFFER_SIZE in *; lia).
      subst room. rewrite Hfull, Nat.sub_diag. simpl. rewrite app_nil_r.
      destruct g; reflexivity.
    + rewrite push_alone_room by (assumption || unfold BUFFER_SIZE in *; lia).
      set (g1 := with_buffer1 g (stage1_to_stage2 g ++ [item])).
      assert (Hlen1 : length (stage1_to_stage2 g1)
                      = S (length (stage1_to_stage2 g))).
      { subst g1. simpl. rewrite length_app. simpl. lia. }
      specialize (IH g1 Hsd). rewrite Hlen1 in IH. cbn zeta in IH.
      rewrite IH by (simpl in Hgt; lia).
      subst room.
      replace (Z.to_nat BUFFER_SIZE - length (stage1_to_stage2 g))%nat
        with (S (Z.to_nat BUFFER_SIZE
                 - S (length (stage1_to_stage2 g))))%nat by lia.
      generalize (Z.to_nat BUFFER_SIZE - S (length (stage1_to_stage2 g)))%nat.
      intros k. subst g1. destruct g as [q1 q2 sd stats]. simpl.
      rewrite <- app_assoc. reflexivity.
Qed.

(** *** The stage bodies *)

Lemma process_item_frame P item :
  process_item P item
    = set_processed_value item (processed_value (process_item P item)).
Proof. reflexivity. Qed.


Lemma filter_item_counts now item loc stats :
  let stats' := snd (filter_item now item loc stats) in
  items_generated stats' = items_generated stats /\
  items_processed stats' = items_processed stats /\
  barrier_waits stats' = barrier_waits stats.
Proof. unfold filter_item. destruct (passes_filter item); simpl; auto. Qed.

Local Opaque process_item filter_item.

Lemma pipeline_tick_clean P tick st :
  clean (globals st) ->
  let created :=
    DataItem_new tick (rng_draw P tick) (clock_stage1 P tick) in
  let processed := process_item P created in
  let stats2 :=
    incr_barrier_waits (incr_items_processed
      (incr_barrier_waits (incr_items_generated
        (pipeline_stats (globals st))))) in
  let filtered :=
    filter_item (clock_stage3 P tick) processed (locals_stage3 st) stats2 in
  pipeline_tick P tick st =
    ({| globals :=
          {| stage1_to_stage2 := []; stage2_to_stage3 := [];
             pipeline_shutdown := false;
             pipeline_stats := incr_barrier_waits (snd filtered) |};
        processed_count := processed_count st + 1;
        item_stage2 := processed;
        locals_stage3 := snd (fst filtered);
        item_stage3 := fst (fst filtered) |}, true).
Proof.
  destruct st as [[q1 q2 sd stats] pc i2 l3 i3]. unfold clean. simpl.
  intros (-> & -> & ->).
  unfold pipeline_tick, stage_generator_body, stage_processor_body,
    stage_filter_reduce_body, push_to_buffer1_alone, pop_from_buffer1_alone,
    push_to_buffer2_alone, pop_from_buffer2_alone, bump, with_globals,
    with_stats.
  unfold_buffers. simpl.
  destruct (filter_item _ _ _ _) as [[i l] s']. reflexivity.
Qed.

Lemma run_ticks_clean P n : forall tick st,
  clean (globals st) ->
  let st' := run_ticks P n tick st in
  let s := pipeline_stats (globals st) in
  let s' := pipeline_stats (globals st') in
  clean (globals st') /\
  items_generated s' = items_generated s + Z.of_nat n /\
  items_processed s' = items_processed s + Z.of_nat n /\
  barrier_waits s' = barrier_waits s + 3 * Z.of_nat n /\
  processed_count st' = processed_count st + Z.of_nat n.
Proof.
  induction n as [|n IH]; intros tick st Hc.
  - simpl. repeat split; try lia; apply Hc.
  - cbn [run_ticks].
    pose proof (pipeline_tick_clean P tick st Hc) as Ht. cbn zeta in Ht.
    rewrite Ht. clear Ht.
    match goal with
    | |- context [run_ticks P n (tick + 1) ?s1] => set (st1 := s1)
    end.
    assert (Hc1 : clean (globals st1)) by (unfold clean; simpl; auto).
    assert (Hs1 :
      let s := pipeline_stats (globals st) in
      let s1 := pipeline_stats (globals st1) in
      items_generated s1 = items_generated s + 1 /\
      items_processed s1 = items_processed s + 1 /\
      barrier_waits s1 = barrier_waits s + 3).
    { subst st1. cbn [globals pipeline_stats].
      match goal with
      | |- context [filter_item ?a ?b ?c ?d] =>
          destruct (filter_item_counts a b c d) as (F1 & F2 & F3)
      end.
      cbn zeta in *.
      cbn [incr_barrier_waits incr_items_processed incr_items_generated
           items_generated items_processed barrier_waits] in *.
      lia. }
    assert (Hp1 : processed_count st1 = processed_count st + 1)
      by reflexivity.
    clearbody st1. cbn zeta in Hs1.
    specialize (IH (tick + 1) st1 Hc1). cbn zeta in IH.
    destruct IH as (H0 & H1 & H2 & H3 & H4).
    repeat split; try apply H0; lia.
Qed.

(** *** Sequences of pushes and of pops on the two buffers *)

Lemma pipe_run_cons g op ops :
  pipe_run g (op :: ops)
    = (fst (pipe_run (fst (pipe_step g op)) ops),
       snd (pipe_step g op) ++ snd (pipe_run (fst (pipe_step g op)) ops)).
Proof.
  cbn [pipe_run]. destruct (pipe_step g op) as [g1 ev]. cbn [fst snd].
  destruct (pipe_run g1 ops) as [g2 evs]. reflexivity.
Qed.

Lemma pipe_run_app ops1 : forall g ops2,
  pipe_run g (ops1 ++ ops2)
    = (fst (pipe_run (fst (pipe_run g ops1)) ops2),
       snd (pipe_run g ops1)
         ++ snd (pipe_run (fst (pipe_run g ops1)) ops2)).
Proof.
  induction ops1 as [|op ops1 IH]; intros g ops2.
  - cbn [app pipe_run fst snd]. apply surjective_pairing.
  - rewrite <- app_comm_cons, !pipe_run_cons, IH. cbn [fst snd].
    rewrite app_assoc. reflexivity.
Qed.

Lemma pipe_pushes1 items : forall g,
  pipeline_shutdown g = false ->
  Z.of_nat (length (stage1_to_stage2 g)) + Z.of_nat (length items)
    <= BUFFER_SIZE ->
  pipe_run g (map Push1 items)
    = (with_buffer1 g (stage1_to_stage2 g ++ items),
       map (fun item => EvPush1 item true) items).
Proof.
  induction items as [|item items IH]; intros g Hs Hroom.
  - cbn. rewrite app_nil_r. destruct g; reflexivity.
  - cbn [map length] in *. rewrite pipe_run_cons.
    assert (Hstep : pipe_step g (Push1 item)
                    = (with_buffer1 g (stage1_to_stage2 g ++ [item]),
                       [EvPush1 item true])).
    { destruct g as [q1 q2 sd stats]. cbn in Hs, Hroom |- *. subst sd.
      unfold_buffers. cbn.
      destruct (Z.of_nat (length q1) >=? BUFFER_SIZE) eqn:E; norm_tests;
        [lia|]. reflexivity. }
    rewrite Hstep. cbn [fst snd]. rewrite IH.
    + destruct g. cbn. rewrite <- app_assoc. reflexivity.
    + destruct g. exact Hs.
    + destruct g. cbn in *. rewrite length_app. cbn. lia.
Qed.

Lemma pipe_pops1 items : forall g rest,
  stage1_to_stage2 g = items ++ rest ->
  pipe_run g (repeat Pop1 (length items))
    = (with_buffer1 g rest, map (fun item => EvPop1 (Some item)) items).
Proof.
  induction items as [|item items IH]; intros g rest Hq.
  - cbn in *. destruct g. cbn in *. subst. reflexivity.
  - cbn [length repeat map]. rewrite pipe_run_cons.
    assert (Hstep : pipe_step g Pop1
                    = (with_buffer1 g (items ++ rest),
                       [EvPop1 (Some item)])).
    { destruct g as [q1 q2 sd stats]. cbn in Hq |- *. subst q1.
      unfold_buffers. cbn. reflexivity. }
    rewrite Hstep. cbn [fst snd]. rewrite (IH _ rest).
    + destruct g. reflexivity.
    + destruct g. reflexivity.
Qed.

Lemma pipe_pushes2 items : forall g,
  pipeline_shutdown g = false ->
  Z.of_nat (length (stage2_to_stage3 g)) + Z.of_nat (length items)
    <= BUFFER_SIZE ->
  pipe_run g (map Push2 items)
    = (with_buffer2 g (stage2_to_stage3 g ++ items),
       map (fun item => EvPush2 item true) items).
Proof.
  induction items as [|item items IH]; intros g Hs Hroom.
  - cbn. rewrite app_nil_r. destruct g; reflexivity.
  - cbn [map length] in *. rewrite pipe_run_cons.
    assert (Hstep : pipe_step g (Push2 item)
                    = (with_buffer2 g (stage2_to_stage3 g ++ [item]),
                       [EvPush2 item true])).
    { destruct g as [q1 q2 sd stats]. cbn in Hs, Hroom |- *. subst sd.
      unfold_buffers. cbn.
      destruct (Z.of_nat (length q2) >=? BUFFER_SIZE) eqn:E; norm_tests;
        [lia|]. reflexivity. }
    rewrite Hstep. cbn [fst snd]. rewrite IH.
    + destruct g. cbn. rewrite <- app_assoc. reflexivity.
    + destruct g. exact Hs.
    + destruct g. cbn in *. rewrite length_app. cbn. lia.
Qed.

Lemma pipe_pops2 items : forall g rest,
  stage2_to_stage3 g = items ++ rest ->
  pipe_run g (repeat Pop2 (length items))
    = (with_buffer2 g rest, map (fun item => EvPop2 (Some item)) items).
Proof.
  induction items as [|item items IH]; intros g rest Hq.
  - cbn in *. destruct g. cbn in *. subst. reflexivity.
  - cbn [length repeat map]. rewrite pipe_run_cons.
    assert (Hstep : pipe_step g Pop2
                    = (with_buffer2 g (items ++ rest),
                       [EvPop2 (Some item)])).
    { destruct g as [q1 q2 sd stats]. cbn in Hq |- *. subst q2.
      unfold_buffers. cbn. reflexivity. }
    rewrite Hstep. cbn [fst snd]. rewrite (IH _ rest).
    + destruct g. reflexivity.
    + destruct g. reflexivity.
Qed.

End P5Facts.

(* ====================================================================== *)
(** ** The specification's properties *)
(* ====================================================================== *)

Import P2 P5 P2Facts P5Facts.

Lemma rem_zero_mod_zero a b : b <> 0 -> (Z.rem a b = 0 <-> a mod b = 0).
Proof.
  intros Hb. rewrite Z.rem_divide, Z.mod_divide by exact Hb. reflexivity.
Qed.

(** C1.  In the filter/reduce stage an item passes exactly when
    0.1 < processed_value < 100.0, its id is not a multiple of 13, and its
    raw value is a multiple of 3 or of 7.  A passing item adds its
    processed value to the accumulator and its latency to the latency
    total, the latency being the clock difference now - timestamp as a
    double, divided by the 1000000 ticks of a millisecond; an item that
    does not pass leaves the stage's variables and the statistics as they
    were. *)
Theorem C1_filter_reduce_stage :
  forall (now : Z) (item : DataItem) (loc : FilterLocals)
         (stats : PipelineStats),
    let res := filter_item now item loc stats in
    let pv := processed_value item in
    (passes_filter item = true <->
       (PrimFloat.ltb 0.1%float pv = true /\
        PrimFloat.ltb pv 100%float = true) /\
       (id item) mod 13 <> 0 /\
       ((raw_value item) mod 3 = 0 \/ (raw_value item) mod 7 = 0)) /\
    (passes_filter item = true ->
       accumulated_result (snd (fst res))
         = PrimFloat.add (accumulated_result loc) pv /\
       total_latency_ms (snd res)
         = PrimFloat.add (total_latency_ms stats)
             (PrimFloat.div (float_of_int (now - timestamp item))
                            1000000%float) /\
       filtered_count (snd (fst res)) = filtered_count loc + 1 /\
       items_filtered (snd res) = items_filtered stats + 1 /\
       items_generated (snd res) = items_generated stats /\
       items_processed (snd res) = items_processed stats /\
       barrier_waits (snd res) = barrier_waits stats /\
       is_valid (fst (fst res)) = true) /\
    (passes_filter item = false ->
       snd (fst res) = loc /\ snd res = stats /\
       is_valid (fst (fst res)) = false).
Proof.
  intros now item loc stats res pv. subst res pv. split; [|split].
  - unfold passes_filter.
    rewrite <- (rem_zero_mod_zero (id item) 13) by discriminate.
    rewrite <- (rem_zero_mod_zero (raw_value item) 3) by discriminate.
    rewrite <- (rem_zero_mod_zero (raw_value item) 7) by discriminate.
    rewrite <- !Z.eqb_eq.
    destruct (PrimFloat.ltb 0.1 (processed_value item));
      destruct (PrimFloat.ltb (processed_value item) 100);
      destruct (Z.rem (id item) 13 =? 0);
      destruct (Z.rem (raw_value item) 3 =? 0);
      destruct (Z.rem (raw_value item) 7 =? 0); simpl;
      intuition congruence.
  - intros Hp. unfold filter_item. rewrite Hp.
    cbn -[float_of_int PrimFloat.div PrimFloat.add]. auto 10.
  - intros Hp. unfold filter_item. rewrite Hp. simpl. auto.
Qed.

(** The latency of an item built at 2 ms and filtered at 5.5 ms on the
    steady clock is 3.5 ms. *)
Example latency_ms_sample : latency_ms 5500000 2000000 = 3.5%float.
Proof. vm_compute. reflexivity. Qed.

Lemma run_pipeline_benchmark_ticks P num_ticks :
  let st := run_pipeline_benchmark P num_ticks program_start in
  let s := pipeline_stats (globals st) in
  items_generated s = DEFAULT_TICKS /\
  items_processed s = DEFAULT_TICKS /\
  barrier_waits s = 3 * DEFAULT_TICKS /\
  processed_count st = DEFAULT_TICKS.
Proof.
  unfold run_pipeline_benchmark, run_stages.
  match goal with
  | |- context [run_ticks P ?n ?t ?s0] =>
      pose proof (run_ticks_clean P n t s0) as H
  end.
  cbn zeta in *.
  destruct H as (_ & H1 & H2 & H3 & H4).
  { unfold clean. simpl. auto. }
  rewrite H1, H2, H3, H4. unfold DEFAULT_TICKS. simpl. lia.
Qed.

(** C2.  What the code does when the run entry point is given a tick count
    of 10: with no timeout and no shutdown, the generator and the processor
    each complete 1000 ticks, and the three stages together reach the
    barrier 3000 times.  The loops are bounded by [DEFAULT_TICKS], not by
    the argument. *)
Theorem C2_tick_argument_ignored :
  forall P : Platform,
    let st := run_pipeline_benchmark P 10 program_start in
    let s := pipeline_stats (globals st) in
    items_generated s = 1000 /\
    items_processed s = 1000 /\
    barrier_waits s = 3000 /\
    processed_count st = 1000.
Proof.
  intros P. exact (run_pipeline_benchmark_ticks P 10).
Qed.

Lemma ring_reached_balanced mem ops :
  ring_balanced (fst (ring_run (ring_init mem) ops)).
Proof. apply ring_run_balanced, ring_init_balanced. Qed.

Lemma ring_reached_wf mem ops : ring_wf (fst (ring_run (ring_init mem) ops)).
Proof. apply ring_run_wf, ring_init_wf. Qed.

Lemma program_start_bounded : buffers_bounded program_start.
Proof. unfold buffers_bounded, BUFFER_SIZE. simpl. lia. Qed.

(** C3.  From the empty initial state, after any sequence of transitions
    the number of stored items lies between 0 and the capacity, on the ring
    ([QUEUE_SIZE]) and on both pipeline buffers ([BUFFER_SIZE]).  A push on
    a full queue stores nothing and does not return [true]; a pop on an
    empty queue removes nothing and returns no item. *)
Theorem C3_capacity_invariant :
  (forall (mem : nat -> Z) (ops : list ring_op),
     let ring := fst (ring_run (ring_init mem) ops) in
     0 <= count ring <= QUEUE_SIZE /\
     (count ring = QUEUE_SIZE ->
      forall v,
        snd (ring_push ring v) <> Ret true /\
        count (fst (ring_push ring v)) = count ring /\
        buffer (fst (ring_push ring v)) = buffer ring) /\
     (count ring = 0 ->
      (forall v, snd (ring_pop ring) <> Ret (Some v)) /\
      count (fst (ring_pop ring)) = 0)) /\
  (forall ops : list pipe_op,
     let g := fst (pipe_run program_start ops) in
     0 <= Z.of_nat (length (stage1_to_stage2 g)) <= BUFFER_SIZE /\
     0 <= Z.of_nat (length (stage2_to_stage3 g)) <= BUFFER_SIZE /\
     (forall item,
        Z.of_nat (length (stage1_to_stage2 g)) = BUFFER_SIZE ->
        snd (push_to_buffer1 g item) <> Ret true /\
        fst (push_to_buffer1 g item) = g) /\
     (forall item,
        Z.of_nat (length (stage2_to_stage3 g)) = BUFFER_SIZE ->
        snd (push_to_buffer2 g item) <> Ret true /\
        fst (push_to_buffer2 g item) = g) /\
     (stage1_to_stage2 g = [] ->
        (forall item, snd (pop_from_buffer1 g) <> Ret (Some item)) /\
        fst (pop_from_buffer1 g) = g) /\
     (stage2_to_stage3 g = [] ->
        (forall item, snd (pop_from_buffer2 g) <> Ret (Some item)) /\
        fst (pop_from_buffer2 g) = g)).
Proof.
  split.
  - intros mem ops ring.
    destruct (ring_reached_balanced mem ops) as [Hc _]. fold ring in Hc.
    split; [exact Hc|]. split.
    + intros Hfull v.
      pose proof (ring_push_effect ring v Hc) as H.
      destruct (ring_push ring v) as [r [|[|]]]; simpl;
        try (split; [discriminate|]; split; apply H).
      lia.
    + intros Hempty.
      pose proof (ring_pop_effect ring Hc) as H.
      destruct (ring_pop ring) as [r [|[v|]]]; simpl.
      * split; [discriminate|]. lia.
      * lia.
      * split; [discriminate|]. lia.
  - intros ops g.
    destruct (pipe_run_bounded ops program_start program_start_bounded)
      as [H1 H2]. fold g in H1, H2.
    split; [lia|]. split; [lia|].
    destruct g as [q1 q2 sd stats]. simpl in *.
    repeat split; try discriminate.
    + unfold_buffers. simpl. split_cases; simpl; try discriminate.
      norm_tests. lia.
    + unfold_buffers. simpl. split_cases; simpl; try reflexivity.
      norm_tests. lia.
    + unfold_buffers. simpl. split_cases; simpl; try discriminate.
      norm_tests. lia.
    + unfold_buffers. simpl. split_cases; simpl; try reflexivity.
      norm_tests. lia.
    + subst q1. unfold_buffers. simpl. split_cases; simpl; discriminate.
    + subst q1. unfold_buffers. simpl. split_cases; reflexivity.
    + subst q2. unfold_buffers. simpl. split_cases; simpl; discriminate.
    + subst q2. unfold_buffers. simpl. split_cases; reflexivity.
Qed.

(** C4.  On one queue, from the empty initial state and for any sequence
    of transitions: a pop on a queue that holds something returns the
    oldest stored value and removes it; the values returned by successful
    pops, followed by what the queue still holds, are exactly the values of
    the successful pushes, in push order, so nothing is lost, duplicated or
    reordered, and once the queue is empty the two sequences are equal.  In
    particular a producer that pushes a list of values that fits in the
    queue, followed by a consumer that pops as many times, sees every push
    succeed and every pop return, in order, the values pushed.  This holds
    for the ring and for each pipeline buffer. *)
Theorem C4_fifo_order :
  (forall (mem : nat -> Z) (ops : list ring_op),
     let res := ring_run (ring_init mem) ops in
     pushed (snd res) = popped (snd res) ++ ring_contents (fst res) /\
     (count (fst res) = 0 -> pushed (snd res) = popped (snd res)) /\
     (forall v rest,
        ring_contents (fst res) = v :: rest ->
        snd (ring_pop (fst res)) = Ret (Some v) /\
        ring_contents (fst (ring_pop (fst res))) = rest)) /\
  (forall (mem : nat -> Z) (values : list Z),
     Z.of_nat (length values) <= QUEUE_SIZE ->
     snd (ring_run (ring_init mem)
            (map OpPush values ++ repeat OpPop (length values)))
       = map (fun v => EvPush v true) values
         ++ map (fun v => EvPop (Some v)) values) /\
  (forall ops : list pipe_op,
     let res := pipe_run program_start ops in
     pushed1 (snd res) = popped1 (snd res) ++ stage1_to_stage2 (fst res) /\
     pushed2 (snd res) = popped2 (snd res) ++ stage2_to_stage3 (fst res) /\
     (stage1_to_stage2 (fst res) = [] ->
      pushed1 (snd res) = popped1 (snd res)) /\
     (stage2_to_stage3 (fst res) = [] ->
      pushed2 (snd res) = popped2 (snd res)) /\
     (forall item rest,
        stage1_to_stage2 (fst res) = item :: rest ->
        snd (pop_from_buffer1 (fst res)) = Ret (Some item) /\
        stage1_to_stage2 (fst (pop_from_buffer1 (fst res))) = rest) /\
     (forall item rest,
        stage2_to_stage3 (fst res) = item :: rest ->
        snd (pop_from_buffer2 (fst res)) = Ret (Some item) /\
        stage2_to_stage3 (fst (pop_from_buffer2 (fst res))) = rest)) /\
  (forall items : list DataItem,
     Z.of_nat (length items) <= BUFFER_SIZE ->
     snd (pipe_run program_start
            (map Push1 items ++ repeat Pop1 (length items)))
       = map (fun item => EvPush1 item true) items
         ++ map (fun item => EvPop1 (Some item)) items /\
     snd (pipe_run program_start
            (map Push2 items ++ repeat Pop2 (length items)))
       = map (fun item => EvPush2 item true) items
         ++ map (fun item => EvPop2 (Some item)) items).
Proof.
  split; [|split; [|split]].
  - intros mem ops res.
    assert (H : pushed (snd res) = popped (snd res) ++ ring_contents (fst res)).
    { pose proof (ring_run_contents ops (ring_init mem) (fst res) (snd res)
                    (ring_init_wf mem)) as H.
      rewrite <- H by (subst res; apply surjective_pairing).
      reflexivity. }
    split; [exact H|]. split.
    + intros H0. rewrite H. unfold ring_contents. rewrite H0. simpl.
      apply app_nil_r.
    + intros v rest Hc.
      pose proof (ring_reached_wf mem ops) as Hwf. fold res in Hwf.
      assert (Hne : count (fst res) <> 0).
      { pose proof (ring_contents_length (fst res)) as Hl.
        rewrite Hc in Hl. cbn [length] in Hl.
        destruct Hwf as (_ & _ & Hb & _). lia. }
      destruct (ring_pop_nonempty (fst res) Hne) as [w Hw].
      assert (Hp : ring_pop (fst res)
                   = (fst (ring_pop (fst res)), Ret (Some w))).
      { rewrite <- Hw. apply surjective_pairing. }
      pose proof (ring_pop_contents (fst res) w _ Hwf Hp) as Hk.
      rewrite Hc in Hk. injection Hk as -> ->. auto.
  - intros mem values Hlen.
    rewrite ring_run_app. cbn [snd].
    destruct (ring_pushes values (ring_init mem) (ring_init_wf mem)
                eq_refl eq_refl) as (E1 & E2 & E3 & E4).
    { cbn [count ring_init]. lia. }
    rewrite E1. f_equal.
    destruct (ring_pops (length values)
                (fst (ring_run (ring_init mem) (map OpPush values))) E3)
      as [P1 _].
    { rewrite E4. cbn [count ring_init]. lia. }
    rewrite P1, E2.
    change (ring_contents (ring_init mem)) with (@nil Z).
    cbn [app]. rewrite firstn_all. reflexivity.
  - intros ops res.
    destruct (pipe_run_fifo ops program_start) as [H1 H2].
    fold res in H1, H2. simpl in H1, H2.
    split; [exact H1|]. split; [exact H2|].
    split; [intros E; rewrite H1, E; apply app_nil_r|].
    split; [intros E; rewrite H2, E; apply app_nil_r|].
    destruct (fst res) as [q1 q2 sd stats]. cbn.
    split; intros item rest ->; unfold_buffers; cbn; auto.
  - intros items Hlen. split.
    + rewrite pipe_run_app. cbn [snd].
      rewrite pipe_pushes1 by (cbn; auto; lia). cbn [fst snd app].
      rewrite (pipe_pops1 items _ []) by (cbn; apply app_nil_r || symmetry;
                                          apply app_nil_r).
      reflexivity.
    + rewrite pipe_run_app. cbn [snd].
      rewrite pipe_pushes2 by (cbn; auto; lia). cbn [fst snd app].
      rewrite (pipe_pops2 items _ []) by (cbn; apply app_nil_r || symmetry;
                                          apply app_nil_r).
      reflexivity.
Qed.

(** C5.  Once the shutdown flag is up, every push that returns afterwards
    returns [false] and stores nothing, so everything the later pops return
    was already in the queue when the flag went up.  For the ring the flag
    is [stop_requested] (or [force_stop]); for the pipeline buffers it is
    [pipeline_shutdown]. *)
Theorem C5_no_push_after_shutdown :
  (forall (mem : nat -> Z) (before after : list ring_op),
     let ring := fst (ring_run (ring_init mem) before) in
     ring_stopped ring ->
     let res := ring_run ring after in
     Forall (fun ok => ok = false) (push_results (snd res)) /\
     pushed (snd res) = [] /\
     ring_contents ring = popped (snd res) ++ ring_contents (fst res)) /\
  (forall (g : Globals) (after : list pipe_op),
     pipeline_shutdown g = true ->
     let res := pipe_run g after in
     Forall (fun ok => ok = false) (pipe_push_results (snd res)) /\
     pushed1 (snd res) = [] /\ pushed2 (snd res) = [] /\
     stage1_to_stage2 g = popped1 (snd res) ++ stage1_to_stage2 (fst res) /\
     stage2_to_stage3 g = popped2 (snd res) ++ stage2_to_stage3 (fst res)).
Proof.
  split.
  - intros mem before after ring Hs res.
    destruct (ring_run_stopped after ring Hs) as [H1 H2]. fold res in H1, H2.
    split; [exact H2|]. split; [exact H1|].
    pose proof (ring_run_contents after ring (fst res) (snd res)
                  (ring_reached_wf mem before)) as H.
    rewrite <- H by (subst res; apply surjective_pairing).
    rewrite H1. symmetry. apply app_nil_r.
  - intros g after Hs res.
    pose proof (pipe_run_shutdown after g Hs) as H. fold res in H.
    destruct (pushed_none_of_results _ H) as [E1 E2].
    destruct (pipe_run_fifo after g) as [F1 F2]. fold res in F1, F2.
    rewrite E1, app_nil_r in F1. rewrite E2, app_nil_r in F2.
    repeat split; assumption.
Qed.

Lemma ring_pop_none ring :
  snd (ring_pop ring) = Ret None <->
  count ring = 0 /\ ring_stopped ring.
Proof.
  unfold ring_pop, ring_stopped.
  destruct (count ring =? 0) eqn:E;
    [apply Z.eqb_eq in E | apply Z.eqb_neq in E];
    destruct (stop_requested ring), (force_stop ring); simpl;
    split; intros H; try discriminate; try tauto;
    destruct H as [H1 [H2|H2]]; congruence.
Qed.

Lemma timed_pop_none q sd :
  snd (timed_pop q sd) = Ret None <-> q = [] /\ sd = true.
Proof.
  unfold timed_pop, queue_empty.
  destruct q, sd; simpl; split; intros H; try discriminate; auto;
    destruct H; discriminate.
Qed.

(** C6.  A pop on a queue that holds something returns its front item,
    shutdown or not, so what was stored before a shutdown can still be
    drained.  A pop returns empty-handed exactly when its wait ran into the
    deadline, or when it finds the queue empty with the shutdown flag up.
    (The ring's pop has no deadline: it returns empty-handed exactly in the
    second case.) *)
Theorem C6_pop_after_shutdown :
  (forall (g : Globals) (item : DataItem) (q : list DataItem),
     pop_from_buffer1 (with_buffer1 g (item :: q))
       = (with_buffer1 g q, Ret (Some item)) /\
     pop_from_buffer2 (with_buffer2 g (item :: q))
       = (with_buffer2 g q, Ret (Some item))) /\
  (forall (w : wake) (g : Globals),
     (snd (pop_from_buffer1 g) = Ret None <->
        stage1_to_stage2 g = [] /\ pipeline_shutdown g = true) /\
     (snd (pop_from_buffer1_resume w g) = Ret None <->
        w = TimedOut \/
        (stage1_to_stage2 g = [] /\ pipeline_shutdown g = true)) /\
     (snd (pop_from_buffer2 g) = Ret None <->
        stage2_to_stage3 g = [] /\ pipeline_shutdown g = true) /\
     (snd (pop_from_buffer2_resume w g) = Ret None <->
        w = TimedOut \/
        (stage2_to_stage3 g = [] /\ pipeline_shutdown g = true))) /\
  (forall (mem : nat -> Z) (ops : list ring_op),
     let ring := fst (ring_run (ring_init mem) ops) in
     (0 < count ring ->
      exists v rest,
        ring_contents ring = v :: rest /\
        snd (ring_pop ring) = Ret (Some v) /\
        ring_contents (fst (ring_pop ring)) = rest) /\
     (snd (ring_pop ring) = Ret None <->
        count ring = 0 /\ ring_stopped ring)).
Proof.
  split; [|split].
  - intros [q1 q2 sd stats] item q. split; reflexivity.
  - intros w g.
    pose proof (timed_pop_none (stage1_to_stage2 g) (pipeline_shutdown g))
      as H1.
    pose proof (timed_pop_none (stage2_to_stage3 g) (pipeline_shutdown g))
      as H2.
    unfold pop_from_buffer1_resume, pop_from_buffer2_resume,
      pop_from_buffer1, pop_from_buffer2.
    destruct (timed_pop (stage1_to_stage2 g) (pipeline_shutdown g))
      as [q1' r1].
    destruct (timed_pop (stage2_to_stage3 g) (pipeline_shutdown g))
      as [q2' r2].
    simpl in *.
    destruct w; simpl; rewrite <- ?H1, <- ?H2;
      repeat split; intros; auto; try tauto;
      match goal with
      | H : _ \/ _ |- _ => destruct H as [H|H]; [discriminate|exact H]
      end.
  - intros mem ops ring. split; [|apply ring_pop_none].
    intros Hpos.
    pose proof (ring_reached_wf mem ops) as Hwf. fold ring in Hwf.
    destruct (ring_pop ring) as [r out] eqn:Hp.
    assert (Hout : exists v, out = Ret (Some v)).
    { revert Hp. unfold ring_pop.
      assert (E : (count ring =? 0) = false) by (apply Z.eqb_neq; lia).
      rewrite E. simpl. intros Hp. inversion Hp. eauto. }
    destruct Hout as [v ->].
    exists v, (ring_contents r). simpl.
    repeat split. apply ring_pop_contents; assumption.
Qed.

Lemma timed_push_alone_with_room capacity q item :
  Z.of_nat (length q) < capacity ->
  timed_push_alone_with capacity q false item = (q ++ [item], true).
Proof.
  intros H. unfold timed_push_alone_with, timed_push_with.
  destruct (Z.of_nat (length q) >=? capacity) eqn:E;
    rewrite Z.geb_leb in E;
    [apply Z.leb_le in E; lia | reflexivity].
Qed.

Lemma timed_push_with_full capacity q item :
  capacity <= Z.of_nat (length q) ->
  timed_push_with capacity q false item = (q, Wait).
Proof.
  intros H. unfold timed_push_with.
  destruct (Z.of_nat (length q) >=? capacity) eqn:E;
    rewrite Z.geb_leb in E;
    [reflexivity | apply Z.leb_gt in E; lia].
Qed.

Lemma timed_push_alone_with_full capacity q item :
  capacity <= Z.of_nat (length q) ->
  timed_push_alone_with capacity q false item = (q, false).
Proof.
  intros H. unfold timed_push_alone_with.
  rewrite timed_push_with_full by exact H. reflexivity.
Qed.

Lemma push_all_alone_with_spec (capacity : nat) items : forall q,
  (length q <= capacity)%nat ->
  let room := (capacity - length q)%nat in
  push_all_alone_with (Z.of_nat capacity) q false items
    = (q ++ firstn room items,
       repeat true (Nat.min room (length items))
         ++ repeat false (length items - room)).
Proof.
  induction items as [|item items IH]; intros q Hq room; subst room.
  - cbn [push_all_alone_with length]. rewrite firstn_nil, app_nil_r.
    rewrite Nat.min_0_r. reflexivity.
  - cbn [push_all_alone_with length].
    destruct (Nat.eq_dec (length q) capacity) as [Hfull|Hroom].
    + rewrite timed_push_alone_with_full by lia.
      rewrite (IH q Hq). rewrite Hfull, Nat.sub_diag.
      cbn [firstn Nat.min repeat app]. rewrite !Nat.sub_0_r.
      reflexivity.
    + rewrite timed_push_alone_with_room by lia.
      rewrite (IH (q ++ [item])) by (rewrite length_app; cbn; lia).
      rewrite length_app. cbn [length].
      replace (capacity - length q)%nat
        with (S (capacity - (length q + 1)))%nat by lia.
      cbn [firstn Nat.min repeat app Nat.sub]. rewrite <- app_assoc.
      reflexivity.
Qed.

(** C7.  A push that returns [false], by deadline or by shutdown, leaves
    the queue as it was: on both pipeline buffers, on the ring, and on the
    push text of the pipeline with any capacity in the place of
    [BUFFER_SIZE] (the buffers being its instance at [BUFFER_SIZE]).  With
    capacity 4, no consumer and ten items to push, the first four pushes
    succeed; the fifth finds the queue full, waits, and returns [false]
    when the wait runs into the deadline, as do the later ones; the queue
    still holds the first four items, in order.  The same holds for every
    capacity, and for the buffers of the code with their capacity 100. *)
Theorem C7_failed_push_leaves_queue :
  (forall (w : wake) (g : Globals) (item : DataItem),
     (snd (push_to_buffer1 g item) = Ret false ->
      fst (push_to_buffer1 g item) = g) /\
     (snd (push_to_buffer1_resume w g item) = Ret false ->
      fst (push_to_buffer1_resume w g item) = g) /\
     (snd (push_to_buffer2 g item) = Ret false ->
      fst (push_to_buffer2 g item) = g) /\
     (snd (push_to_buffer2_resume w g item) = Ret false ->
      fst (push_to_buffer2_resume w g item) = g)) /\
  (forall (ring : Ring) (v : Z),
     snd (ring_push ring v) = Ret false -> fst (ring_push ring v) = ring) /\
  (forall items : list DataItem,
     (100 < length items)%nat ->
     produce_alone program_start items
       = (with_buffer1 program_start (firstn 100 items),
          repeat true 100 ++ [false])) /\
  (forall (q : list DataItem) (shutdown : bool) (item : DataItem),
     timed_push_with BUFFER_SIZE q shutdown item
       = timed_push q shutdown item) /\
  (forall (w : wake) (capacity : Z) (q : list DataItem) (shutdown : bool)
          (item : DataItem),
     (snd (timed_push_with capacity q shutdown item) = Ret false ->
      fst (timed_push_with capacity q shutdown item) = q) /\
     (snd (timed_push_resume_with w capacity q shutdown item) = Ret false ->
      fst (timed_push_resume_with w capacity q shutdown item) = q) /\
     (snd (timed_push_alone_with capacity q shutdown item) = false ->
      fst (timed_push_alone_with capacity q shutdown item) = q)) /\
  (forall (q : list DataItem) (item : DataItem),
     length q = 4%nat ->
     timed_push_with 4 q false item = (q, Wait) /\
     timed_push_resume_with TimedOut 4 q false item = (q, Ret false) /\
     timed_push_alone_with 4 q false item = (q, false)) /\
  (forall items : list DataItem,
     length items = 10%nat ->
     push_all_alone_with 4 [] false items
       = (firstn 4 items,
          [true; true; true; true;
           false; false; false; false; false; false]) /\
     length (fst (push_all_alone_with 4 [] false items)) = 4%nat) /\
  (forall (capacity : nat) (items : list DataItem),
     (capacity < length items)%nat ->
     push_all_alone_with (Z.of_nat capacity) [] false items
       = (firstn capacity items,
          repeat true capacity
            ++ repeat false (length items - capacity))).
Proof.
  split; [|split; [|split; [|split; [|split; [|split; [|split]]]]]].
  - intros w [q1 q2 sd stats] item.
    repeat split; unfold_buffers; simpl; destruct w; split_cases; simpl;
      intros H; try discriminate; reflexivity.
  - intros ring v. unfold ring_push. ring_cases; simpl; intros H;
      try discriminate; reflexivity.
  - intros items Hlen.
    pose proof (produce_alone_overflow items program_start) as H.
    cbn zeta in H. apply H; unfold BUFFER_SIZE; simpl; try reflexivity; lia.
  - reflexivity.
  - intros w capacity q sd item.
    unfold timed_push_alone_with, timed_push_resume_with, timed_push_with.
    repeat split; destruct w; split_cases; cbn; intros H;
      try discriminate; reflexivity.
  - intros q item Hq. split; [|split].
    + apply timed_push_with_full. lia.
    + reflexivity.
    + apply timed_push_alone_with_full. lia.
  - intros items Hlen.
    pose proof (push_all_alone_with_spec 4 items [] ltac:(cbn; lia)) as H.
    cbn zeta in H. change (Z.of_nat 4) with 4 in H. rewrite H, Hlen.
    cbn [length Nat.sub Nat.min repeat app]. split; [reflexivity|].
    cbn [fst]. rewrite length_firstn, Hlen. reflexivity.
  - intros capacity items Hlen.
    pose proof (push_all_alone_with_spec capacity items [] ltac:(cbn; lia))
      as H.
    cbn zeta in H. rewrite H. cbn [length app].
    rewrite Nat.sub_0_r, Nat.min_l by lia. reflexivity.
Qed.





(** C10.  From the initial state, after any sequence of transitions on the
    ring, [total_produced - total_consumed = count].  A push that returns
    [true] adds one to [total_produced] and to [count]; a pop that returns
    an item adds one to [total_consumed] and takes one from [count]; every
    other pass leaves the three of them, and the stored data, as they
    were. *)
Theorem C10_counters_account_for_items :
  forall (mem : nat -> Z) (ops : list ring_op),
    let ring := fst (ring_run (ring_init mem) ops) in
    total_produced ring - total_consumed ring = count ring /\
    (forall v,
       match ring_push ring v with
       | (ring', Ret true) =>
           count ring' = count ring + 1 /\
           total_produced ring' = total_produced ring + 1 /\
           total_consumed ring' = total_consumed ring
       | (ring', _) =>
           count ring' = count ring /\
           total_produced ring' = total_produced ring /\
           total_consumed ring' = total_consumed ring
       end) /\
    match ring_pop ring with
    | (ring', Ret (Some _)) =>
        count ring' = count ring - 1 /\
        total_produced ring' = total_produced ring /\
        total_consumed ring' = total_consumed ring + 1
    | (ring', _) =>
        count ring' = count ring /\
        total_produced ring' = total_produced ring /\
        total_consumed ring' = total_consumed ring
    end.
Proof.
  intros mem ops ring.
  destruct (ring_reached_balanced mem ops) as [Hc Hb]. fold ring in Hc, Hb.
  split; [exact Hb|]. split.
  - intros v. pose proof (ring_push_effect ring v Hc) as H.
    destruct (ring_push ring v) as [r [|[|]]]; tauto.
  - pose proof (ring_pop_effect ring Hc) as H.
    destruct (ring_pop ring) as [r [|[v|]]]; tauto.
Qed.

(* ====================================================================== *)
(** ** Further properties of p2_ring.cpp *)
(* ====================================================================== *)

(** X1.  On every ring reached from the initial state, [head] and [tail]
    are valid indices of the array, so [buffer[head]] in [ring_push] and
    [buffer[tail]] in [ring_pop] never fall outside it; [head] is [count]
    cells ahead of [tail] round the array, and the two meet exactly when the
    ring is empty or full. *)
Theorem X1_ring_indices_in_bounds :
  forall (mem : nat -> Z) (ops : list ring_op),
    let ring := fst (ring_run (ring_init mem) ops) in
    length (buffer ring) = 1024%nat /\
    (Z.to_nat (head ring) < length (buffer ring))%nat /\
    (Z.to_nat (tail ring) < length (buffer ring))%nat /\
    0 <= head ring /\ 0 <= tail ring /\
    head ring = (tail ring + count ring) mod QUEUE_SIZE /\
    (head ring = tail ring <-> count ring = 0 \/ count ring = QUEUE_SIZE).
Proof.
  intros mem ops ring.
  destruct (ring_reached_wf mem ops) as (Hlen & Ht & Hc & Hh).
  fold ring in Hlen, Ht, Hc, Hh. unfold QUEUE_SIZE in *.
  assert (Hhb : 0 <= head ring < 1024).
  { rewrite Hh. apply Z.mod_pos_bound. lia. }
  rewrite Hlen. repeat split; try lia.
  - intros E. rewrite E in Hh.
    destruct (Z.eq_dec (count ring) 1024) as [|Hn]; [auto|left].
    rewrite <- (Z.mod_small (tail ring) 1024) in Hh at 1 by lia.
    destruct (Z.eq_dec (count ring) 0) as [|Hp]; [assumption|exfalso].
    revert Hh. replace (tail ring) with (tail ring + 0) at 1 by lia.
    apply (slot_distinct (tail ring) 0 (count ring)); unfold QUEUE_SIZE; lia.
  - intros [E|E]; rewrite Hh, E.
    + rewrite Z.add_0_r. apply Z.mod_small. lia.
    + replace (tail ring + 1024) with (tail ring + 1 * 1024) by lia.
      rewrite Z.mod_add by lia. apply Z.mod_small. lia.
Qed.

Lemma ring_drain n : forall ring,
  ring_wf ring -> ring_stopped ring ->
  Z.to_nat (count ring) = n ->
  snd (ring_run ring (repeat OpPop (S n)))
    = map (fun v => EvPop (Some v)) (ring_contents ring) ++ [EvPop None] /\
  count (fst (ring_run ring (repeat OpPop (S n)))) = 0 /\
  ring_contents (fst (ring_run ring (repeat OpPop (S n)))) = [].
Proof.
  induction n as [|n IH]; intros ring Hwf Hs Hn;
    [ change (repeat OpPop 1) with [OpPop]
    | change (repeat OpPop (S (S n))) with (OpPop :: repeat OpPop (S n)) ];
    rewrite ring_run_cons, ring_step_pop; cbn [fst snd].
  - assert (Hc : count ring = 0).
    { destruct Hwf as (_ & _ & Hc & _). lia. }
    assert (Hnone : snd (ring_pop ring) = Ret None).
    { apply ring_pop_none. split; assumption. }
    assert (Hsame : fst (ring_pop ring) = ring).
    { revert Hnone. unfold ring_pop. ring_cases; simpl; intros H;
        try discriminate; reflexivity. }
    rewrite Hnone, Hsame. cbn [repeat ring_run fst snd].
    unfold ring_contents. rewrite Hc. simpl. auto.
  - assert (Hc : count ring <> 0) by lia.
    destruct (ring_pop_nonempty ring Hc) as [v Hv].
    pose proof (ring_pop_wf ring Hwf) as Hwf'.
    pose proof (ring_pop_flags ring) as [Hf1 Hf2].
    assert (Hp : ring_pop ring = (fst (ring_pop ring), Ret (Some v))).
    { rewrite <- Hv. apply surjective_pairing. }
    pose proof (ring_pop_contents ring v _ Hwf Hp) as Hcont.
    apply ring_pop_some in Hp as (_ & _ & _ & _ & Hcnt).
    destruct Hwf as (_ & _ & Hcb & _).
    rewrite size_t_wrap_small in Hcnt by (unfold QUEUE_SIZE in *; lia).
    destruct (IH (fst (ring_pop ring))) as (E1 & E2 & E3).
    + exact Hwf'.
    + unfold ring_stopped in *. rewrite Hf1, Hf2. exact Hs.
    + lia.
    + rewrite Hv, E1, Hcont. cbn [map app]. auto.
Qed.

(** X2.  Graceful drain: after [ring_shutdown], on any ring reached from
    the initial state, popping returns the stored items one by one, oldest
    first and without ever waiting, and the pop after the last item returns
    [false] on an empty ring. *)
Theorem X2_shutdown_then_drain :
  forall (mem : nat -> Z) (ops : list ring_op),
    let ring := ring_shutdown (fst (ring_run (ring_init mem) ops)) in
    let pops := repeat OpPop (S (Z.to_nat (count ring))) in
    snd (ring_run ring pops)
      = map (fun v => EvPop (Some v)) (ring_contents ring) ++ [EvPop None] /\
    count (fst (ring_run ring pops)) = 0.
Proof.
  intros mem ops ring pops.
  destruct (ring_drain (Z.to_nat (count ring)) ring) as (E1 & E2 & _).
  - exact (ring_reached_wf mem ops).
  - left. reflexivity.
  - reflexivity.
  - split; assumption.
Qed.

Lemma ring_step_dead ring op :
  ring_stopped ring -> count ring = 0 ->
  let ring' := fst (ring_step ring op) in
  ring_stopped ring' /\ count ring' = 0 /\
  ring_get_stats ring' = ring_get_stats ring /\
  pushed (snd (ring_step ring op)) = [] /\
  popped (snd (ring_step ring op)) = [].
Proof.
  unfold ring_stopped, ring_get_stats. intros Hs Hc.
  destruct op as [value| | |]; simpl; auto 10.
  - unfold ring_push.
    destruct (stop_requested ring) eqn:E1, (force_stop ring) eqn:E2;
      try (destruct Hs; discriminate);
      rewrite ?andb_false_r; simpl; rewrite ?E1, ?E2; auto 10.
  - unfold ring_pop.
    assert (E : (count ring =? 0) = true) by (apply Z.eqb_eq; exact Hc).
    rewrite E.
    destruct (stop_requested ring) eqn:E1, (force_stop ring) eqn:E2;
      try (destruct Hs; discriminate);
      simpl; rewrite ?E1, ?E2; auto 10.
Qed.

Lemma ring_run_dead ops : forall ring,
  ring_stopped ring -> count ring = 0 ->
  ring_get_stats (fst (ring_run ring ops)) = ring_get_stats ring /\
  pushed (snd (ring_run ring ops)) = [] /\
  popped (snd (ring_run ring ops)) = [].
Proof.
  induction ops as [|op ops IH]; intros ring Hs Hc; simpl; [auto|].
  destruct (ring_step_dead ring op Hs Hc) as (H1 & H2 & H3 & H4 & H5).
  destruct (ring_step ring op) as [r1 ev]. simpl in *.
  destruct (IH r1 H1 H2) as (I1 & I2 & I3).
  destruct (ring_run r1 ops) as [r2 evs]. simpl in *.
  rewrite pushed_app, popped_app, H4, H5, I2, I3, I1, H3. auto.
Qed.

(** X3.  Nothing is lost: when a pop returns [false], on a ring reached
    from the initial state, the ring is empty and as many items have been
    consumed as produced; and from then on no transition stores or returns
    an item, so what [ring_get_stats] reports stays as it is (the
    "elementos perdidos" of [run_benchmark] is 0). *)
Theorem X3_failed_pop_means_all_consumed :
  forall (mem : nat -> Z) (before after : list ring_op),
    let ring := fst (ring_run (ring_init mem) before) in
    snd (ring_pop ring) = Ret None ->
    let ring' := fst (ring_run ring after) in
    current_size (ring_get_stats ring) = 0 /\
    produced (ring_get_stats ring) - consumed (ring_get_stats ring) = 0 /\
    ring_get_stats ring' = ring_get_stats ring /\
    pushed (snd (ring_run ring after)) = [] /\
    popped (snd (ring_run ring after)) = [].
Proof.
  intros mem before after ring Hnone ring'.
  apply ring_pop_none in Hnone as [Hc Hs].
  destruct (ring_reached_balanced mem before) as [_ Hb]. fold ring in Hb.
  destruct (ring_run_dead after ring Hs Hc) as (H1 & H2 & H3).
  unfold ring_get_stats at 1 2 3. simpl.
  repeat split; try assumption; lia.
Qed.

Lemma X3_failed_pop_witness :
  ring_get_stats
    (fst (ring_run
            (fst (ring_run (ring_init (fun _ => 0))
                    [OpPush 5; OpPop; OpShutdown]))
            [OpPush 6; OpPop]))
  = {| produced := 1; consumed := 1; prod_blocks := 0; cons_blocks := 0;
       current_size := 0 |}.
Proof.
  pose proof (X3_failed_pop_means_all_consumed (fun _ => 0)
                [OpPush 5; OpPop; OpShutdown] [OpPush 6; OpPop]) as H.
  cbn zeta in H.
  destruct H as (_ & _ & H & _); [vm_compute; reflexivity|].
  rewrite H. vm_compute. reflexivity.
Defined.

Lemma same_but_flags_step r1 r2 op :
  same_but_flags r1 r2 ->
  snd (ring_step r1 op) = snd (ring_step r2 op) /\
  same_but_flags (fst (ring_step r1 op)) (fst (ring_step r2 op)).
Proof.
  unfold same_but_flags.
  intros (Hb & Hh & Ht & Hc & Hp & Hcn & Hpb & Hcb & Hf).
  destruct op as [value| | |]; simpl.
  - unfold ring_push. rewrite Hc.
    destruct (count r2 =? QUEUE_SIZE);
      destruct (stop_requested r1) eqn:S1, (force_stop r1) eqn:F1,
               (stop_requested r2) eqn:S2, (force_stop r2) eqn:F2;
      simpl in *; try discriminate;
      rewrite ?Hb, ?Hh, ?Ht, ?Hc, ?Hp, ?Hcn, ?Hpb, ?Hcb,
              ?S1, ?F1, ?S2, ?F2; auto 12.
  - unfold ring_pop, buffer_at. rewrite Hc.
    destruct (count r2 =? 0);
      destruct (stop_requested r1) eqn:S1, (force_stop r1) eqn:F1,
               (stop_requested r2) eqn:S2, (force_stop r2) eqn:F2;
      simpl in *; try discriminate;
      rewrite ?Hb, ?Hh, ?Ht, ?Hc, ?Hp, ?Hcn, ?Hpb, ?Hcb,
              ?S1, ?F1, ?S2, ?F2; auto 12.
  - rewrite Hb, Hh, Ht, Hc, Hp, Hcn, Hpb, Hcb. auto 12.
  - rewrite Hb, Hh, Ht, Hc, Hp, Hcn, Hpb, Hcb, !orb_true_r. auto 12.
Qed.

Lemma same_but_flags_run ops : forall r1 r2,
  same_but_flags r1 r2 ->
  snd (ring_run r1 ops) = snd (ring_run r2 ops) /\
  same_but_flags (fst (ring_run r1 ops)) (fst (ring_run r2 ops)).
Proof.
  induction ops as [|op ops IH]; intros r1 r2 H; [simpl; auto|].
  rewrite !ring_run_cons. cbn [fst snd].
  destruct (same_but_flags_step r1 r2 op H) as [E1 H1].
  destruct (IH _ _ H1) as [E2 H2].
  rewrite E1, E2. auto.
Qed.

(** X4.  [ring_force_stop] stops no harder than [ring_shutdown]: from the
    same ring, the two lead to the same results for every later sequence of
    pushes, pops and stop requests (stored items are still handed out by
    [ring_pop] until the ring is empty), and to rings that differ only in
    which flag is up; in particular [ring_get_stats] reports the same. *)
Theorem X4_force_stop_like_shutdown :
  forall (ring : Ring) (ops : list ring_op),
    let forced := ring_run (ring_force_stop ring) ops in
    let graceful := ring_run (ring_shutdown ring) ops in
    snd forced = snd graceful /\
    same_but_flags (fst forced) (fst graceful) /\
    ring_get_stats (fst forced) = ring_get_stats (fst graceful) /\
    ring_contents (fst forced) = ring_contents (fst graceful).
Proof.
  intros ring ops forced graceful.
  destruct (same_but_flags_run ops (ring_force_stop ring)
              (ring_shutdown ring)) as [E H].
  { unfold same_but_flags. simpl. rewrite orb_true_r. auto 12. }
  fold forced in E, H. fold graceful in E, H.
  split; [exact E|]. split; [exact H|].
  destruct H as (Hb & Hh & Ht & Hc & Hp & Hcn & Hpb & Hcb & Hf).
  unfold ring_get_stats, ring_contents, buffer_at.
  rewrite Hb, Ht, Hc, Hp, Hcn, Hpb, Hcb. auto.
Qed.

Lemma int_wrap_small z : - 2 ^ 31 <= z < 2 ^ 31 -> int_wrap z = z.
Proof.
  intros H. unfold int_wrap. rewrite Z.mod_small by lia. lia.
Qed.

(** Past the range of [int] the value wraps round: producer 4295 starts at
    the value producer 0 reaches in round 32704, and producer 3000 starts
    below zero. *)
Example producer_values_wrap :
  producer_value 4295 0 = producer_value 0 32704 /\
  producer_value 3000 0 = -1294967296.
Proof. split; reflexivity. Qed.

(** X5.  The value [producer_id * 1000000 + i] names its producer and its
    round as long as the [int] it is computed in does not overflow, that
    is for producer ids from 0 to 2146 and fewer than a million rounds:
    pushes by different producers, or in different rounds of one producer,
    then carry different values. *)
Theorem X5_producer_values_unique :
  forall id1 i1 id2 i2 : Z,
    0 <= id1 <= 2146 -> 0 <= id2 <= 2146 ->
    0 <= i1 < 1000000 -> 0 <= i2 < 1000000 ->
    id1 <> id2 \/ i1 <> i2 ->
    (producer_value id1 i1 =? producer_value id2 i2) = false.
Proof.
  intros id1 i1 id2 i2 H1 H2 H3 H4 Hne. unfold producer_value.
  rewrite !(int_wrap_small (_ * 1000000)) by lia.
  rewrite !int_wrap_small by lia.
  apply Z.eqb_neq. lia.
Qed.

Lemma X5_producer_values_witness :
  (producer_value 1 999999 =? producer_value 2 0) = false /\
  (producer_value 2146 17 =? producer_value 2146 18) = false.
Proof.
  split.
  - apply (X5_producer_values_unique 1 999999 2 0); lia.
  - apply (X5_producer_values_unique 2146 17 2146 18); lia.
Defined.

Lemma ring_push_full ring v :
  stop_requested ring = false -> force_stop ring = false ->
  count ring = QUEUE_SIZE ->
  snd (ring_push ring v) = Wait /\
  ring_contents (fst (ring_push ring v)) = ring_contents ring /\
  count (fst (ring_push ring v)) = count ring /\
  total_produced (fst (ring_push ring v)) = total_produced ring /\
  producer_blocks (fst (ring_push ring v)) = producer_blocks ring + 1.
Proof.
  intros Hs Hf Hc. unfold ring_push. rewrite Hs, Hf, Hc.
  rewrite Z.eqb_refl. simpl. unfold ring_contents, buffer_at. simpl.
  rewrite Hc. auto.
Qed.

Lemma producer_loop_step n i producer_id ring :
  producer_loop (S n) i producer_id ring
    = match snd (ring_push ring (producer_value producer_id i)) with
      | Ret true =>
          producer_loop n (i + 1) producer_id
            (fst (ring_push ring (producer_value producer_id i)))
      | Ret false =>
          (fst (ring_push ring (producer_value producer_id i)),
           ProducerStopped i)
      | Wait =>
          (fst (ring_push ring (producer_value producer_id i)),
           ProducerBlocked i)
      end.
Proof.
  cbn [producer_loop].
  destruct (ring_push ring (producer_value producer_id i)) as [r [|[|]]];
    reflexivity.
Qed.

Lemma producer_values_shift producer_id i n :
  producer_value producer_id i
    :: map (fun k : nat => producer_value producer_id (i + 1 + Z.of_nat k))
           (seq 0 n)
  = map (fun k : nat => producer_value producer_id (i + Z.of_nat k))
        (seq 0 (S n)).
Proof.
  cbn [seq map]. rewrite Z.add_0_r. f_equal.
  rewrite <- seq_shift, map_map. apply map_ext. intros k.
  f_equal. lia.
Qed.

Lemma producer_loop_room producer_id n : forall i ring,
  ring_wf ring ->
  stop_requested ring = false -> force_stop ring = false ->
  count ring + Z.of_nat n <= QUEUE_SIZE ->
  let res := producer_loop n i producer_id ring in
  snd res = ProducerCompleted /\
  ring_contents (fst res)
    = ring_contents ring
      ++ map (fun k : nat => producer_value producer_id (i + Z.of_nat k))
             (seq 0 n) /\
  count (fst res) = count ring + Z.of_nat n /\
  total_produced (fst res) = total_produced ring + Z.of_nat n.
Proof.
  induction n as [|n IH]; intros i ring Hwf Hs Hf Hroom res; subst res.
  - simpl. rewrite app_nil_r. repeat split; lia.
  - rewrite producer_loop_step.
    set (v := producer_value producer_id i).
    assert (Hc : 0 <= count ring <= QUEUE_SIZE) by apply Hwf.
    rewrite (ring_push_room ring v Hs Hf) by lia.
    pose proof (ring_push_wf ring v Hwf) as Hwf1.
    pose proof (ring_push_flags ring v) as [Hs1 Hf1].
    pose proof (ring_push_effect ring v Hc) as He.
    pose proof (ring_push_room ring v Hs Hf ltac:(lia)) as Hr.
    pose proof (ring_push_contents ring v (fst (ring_push ring v)) Hwf) as Hk.
    destruct (ring_push ring v) as [r out]. simpl in *. subst out.
    specialize (Hk eq_refl). destruct He as (_ & Hn & Hp & _).
    destruct (IH (i + 1) r Hwf1) as (E1 & E2 & E3 & E4);
      try congruence; try lia.
    rewrite E1, E2, E3, E4, Hk, Hn, Hp, <- app_assoc.
    change ([v] ++ ?l) with (v :: l).
    subst v. rewrite producer_values_shift.
    repeat split; lia.
Qed.

Lemma producer_loop_blocks producer_id room : forall n i ring,
  ring_wf ring ->
  stop_requested ring = false -> force_stop ring = false ->
  Z.of_nat room = QUEUE_SIZE - count ring ->
  (room < n)%nat ->
  let res := producer_loop n i producer_id ring in
  snd res = ProducerBlocked (i + Z.of_nat room) /\
  ring_contents (fst res)
    = ring_contents ring
      ++ map (fun k : nat => producer_value producer_id (i + Z.of_nat k))
             (seq 0 room) /\
  count (fst res) = QUEUE_SIZE /\
  total_produced (fst res) = total_produced ring + Z.of_nat room /\
  producer_blocks (fst res) = producer_blocks ring + 1.
Proof.
  induction room as [|room IH]; intros n i ring Hwf Hs Hf Hroom Hn res;
    subst res; (destruct n as [|n]; [lia|]); rewrite producer_loop_step;
    set (v := producer_value producer_id i).
  - destruct (ring_push_full ring v Hs Hf) as (E1 & E2 & E3 & E4 & E5);
      [lia|].
    rewrite E1. cbn [fst snd]. rewrite E2, E3, E4, E5, app_nil_r.
    repeat split; try lia. f_equal. lia.
  - assert (Hc : 0 <= count ring <= QUEUE_SIZE) by apply Hwf.
    rewrite (ring_push_room ring v Hs Hf) by lia.
    pose proof (ring_push_wf ring v Hwf) as Hwf1.
    pose proof (ring_push_flags ring v) as [Hs1 Hf1].
    pose proof (ring_push_effect ring v Hc) as He.
    pose proof (ring_push_room ring v Hs Hf ltac:(lia)) as Hr.
    pose proof (ring_push_contents ring v (fst (ring_push ring v)) Hwf) as Hk.
    assert (Hblocks : producer_blocks (fst (ring_push ring v))
                      = producer_blocks ring).
    { revert Hr. unfold ring_push. ring_cases; simpl; intros H;
        try discriminate; reflexivity. }
    destruct (ring_push ring v) as [r out]. simpl in *. subst out.
    specialize (Hk eq_refl). destruct He as (_ & Hcn & Hp & _).
    destruct (IH n (i + 1) r Hwf1) as (E1 & E2 & E3 & E4 & E5);
      try congruence; try lia.
    rewrite E1, E2, E3, E4, E5, Hk, Hp, Hblocks, <- app_assoc.
    change ([v] ++ ?l) with (v :: l).
    subst v. rewrite producer_values_shift.
    repeat split; try lia. f_equal. lia.
Qed.

(** X6.  A producer alone on a running ring with enough room finishes its
    loop: each of its [items_to_produce] values is stored behind what the
    ring held, in the order of the rounds, and [total_produced] grows by
    [items_to_produce]. *)
Theorem X6_producer_with_room :
  forall (mem : nat -> Z) (ops : list ring_op) (items_to_produce id : Z),
    let ring := fst (ring_run (ring_init mem) ops) in
    stop_requested ring = false -> force_stop ring = false ->
    0 <= items_to_produce ->
    count ring + items_to_produce <= QUEUE_SIZE ->
    let res := producer_thread ring items_to_produce id in
    snd res = ProducerCompleted /\
    ring_contents (fst res)
      = ring_contents ring
        ++ map (fun k : nat => producer_value id (Z.of_nat k))
               (seq 0 (Z.to_nat items_to_produce)) /\
    count (fst res) = count ring + items_to_produce /\
    total_produced (fst res) = total_produced ring + items_to_produce.
Proof.
  intros mem ops items id ring Hs Hf H0 Hroom res. subst res.
  unfold producer_thread.
  destruct (producer_loop_room id (Z.to_nat items) 0 ring)
    as (E1 & E2 & E3 & E4); try assumption.
  - exact (ring_reached_wf mem ops).
  - lia.
  - rewrite E1, E2, E3, E4. repeat split; lia.
Qed.

Lemma X6_producer_with_room_witness :
  ring_contents
    (fst (producer_thread
            (fst (ring_run (ring_init (fun _ => 0)) [OpPush 7])) 3 3000))
  = [7; -1294967296; -1294967295; -1294967294].
Proof.
  pose proof (X6_producer_with_room (fun _ => 0) [OpPush 7] 3 3000) as H.
  cbn zeta in H.
  destruct H as (_ & H & _);
    [reflexivity | reflexivity | lia | vm_compute; discriminate |].
  rewrite H. vm_compute. reflexivity.
Defined.

(** X7.  [ring_push] has no deadline: a producer alone on a running ring
    that wants to push more items than there is room for stores the ones
    that fit, in order, and then sleeps in its next push on a full ring,
    having counted one block; it never returns by itself. *)
Theorem X7_producer_without_room_blocks :
  forall (mem : nat -> Z) (ops : list ring_op) (items_to_produce id : Z),
    let ring := fst (ring_run (ring_init mem) ops) in
    stop_requested ring = false -> force_stop ring = false ->
    QUEUE_SIZE < count ring + items_to_produce ->
    let room := QUEUE_SIZE - count ring in
    let res := producer_thread ring items_to_produce id in
    snd res = ProducerBlocked room /\
    ring_contents (fst res)
      = ring_contents ring
        ++ map (fun k : nat => producer_value id (Z.of_nat k))
               (seq 0 (Z.to_nat room)) /\
    count (fst res) = QUEUE_SIZE /\
    producer_blocks (fst res) = producer_blocks ring + 1.
Proof.
  intros mem ops items id ring Hs Hf Hroom room res. subst res.
  unfold producer_thread.
  pose proof (ring_reached_wf mem ops) as Hwf. fold ring in Hwf.
  assert (Hc : 0 <= count ring <= QUEUE_SIZE) by apply Hwf.
  destruct (producer_loop_blocks id (Z.to_nat room) (Z.to_nat items) 0 ring)
    as (E1 & E2 & E3 & E4 & E5); try assumption.
  - subst room. lia.
  - subst room. lia.
  - rewrite E1, E2, E3, E5. subst room.
    repeat split. f_equal. lia.
Qed.

Lemma X7_producer_without_room_witness :
  snd (producer_thread
         (fst (ring_run (ring_init (fun _ => 0)) [OpPush 7])) 2000 2)
  = ProducerBlocked 1023.
Proof.
  pose proof (X7_producer_without_room_blocks (fun _ => 0) [OpPush 7] 2000 2)
    as H.
  cbn zeta in H.
  destruct H as (H & _);
    [reflexivity | reflexivity | vm_compute; reflexivity |].
  rewrite H. vm_compute. reflexivity.
Defined.

Lemma consumer_loop_step fuel ring k :
  consumer_loop (S fuel) ring k
    = match snd (ring_pop ring) with
      | Ret (Some value) =>
          if value =? POISON_PILL
          then Some (fst (ring_pop ring), k + 1, ConsumerPoisoned)
          else consumer_loop fuel (fst (ring_pop ring)) (k + 1)
      | Ret None => Some (fst (ring_pop ring), k, ConsumerDrained)
      | Wait => Some (fst (ring_pop ring), k, ConsumerBlocked)
      end.
Proof.
  cbn [consumer_loop]. destruct (ring_pop ring) as [r [|[v|]]]; reflexivity.
Qed.

Lemma ring_pop_empty ring :
  count ring = 0 ->
  ring_contents (fst (ring_pop ring)) = [] /\
  snd (ring_pop ring)
    = if stop_requested ring || force_stop ring then Ret None else Wait.
Proof.
  intros Hc. unfold ring_pop, ring_contents. rewrite Hc. simpl.
  destruct (stop_requested ring), (force_stop ring); simpl;
    rewrite ?Hc; simpl; auto.
Qed.

Lemma consumer_loop_spec fuel : forall ring k,
  ring_wf ring ->
  (Z.to_nat (count ring) < fuel)%nat ->
  exists ring',
    consumer_loop fuel ring k
      = Some (ring',
              k + Z.of_nat (length (until_pill (ring_contents ring))),
              consumer_verdict ring (ring_contents ring)) /\
    ring_contents ring'
      = skipn (length (until_pill (ring_contents ring))) (ring_contents ring).
Proof.
  induction fuel as [|fuel IH]; intros ring k Hwf Hfuel; [lia|].
  rewrite consumer_loop_step.
  assert (Hcb : 0 <= count ring <= QUEUE_SIZE) by apply Hwf.
  destruct (Z.eq_dec (count ring) 0) as [Hc|Hc].
  - destruct (ring_pop_empty ring Hc) as [E1 E2].
    assert (E0 : ring_contents ring = []).
    { unfold ring_contents. rewrite Hc. reflexivity. }
    rewrite E2, E0. unfold consumer_verdict. simpl.
    exists (fst (ring_pop ring)).
    destruct (stop_requested ring || force_stop ring);
      rewrite Z.add_0_r; auto.
  - destruct (ring_pop_nonempty ring Hc) as [v Hv].
    assert (Hp : ring_pop ring = (fst (ring_pop ring), Ret (Some v))).
    { rewrite <- Hv. apply surjective_pairing. }
    pose proof (ring_pop_contents ring v _ Hwf Hp) as Hcont.
    pose proof (ring_pop_wf ring Hwf) as Hwf1.
    pose proof (ring_pop_flags ring) as [Hf1 Hf2].
    apply ring_pop_some in Hp as (_ & _ & _ & _ & Hcnt).
    rewrite size_t_wrap_small in Hcnt by (unfold QUEUE_SIZE in *; lia).
    rewrite Hv, Hcont. unfold consumer_verdict.
    cbn [until_pill has_pill existsb].
    destruct (v =? POISON_PILL) eqn:Epill.
    + exists (fst (ring_pop ring)). cbn [length skipn orb].
      split; [|reflexivity]. do 2 f_equal.
    + destruct (IH (fst (ring_pop ring)) (k + 1) Hwf1) as [r' [E1 E2]];
        [lia|].
      exists r'. rewrite E1. cbn [length skipn orb].
      split; [|exact E2].
      unfold consumer_verdict, has_pill. rewrite Hf1, Hf2.
      do 2 f_equal. f_equal. lia.
Qed.

(** X8.  A consumer alone on a ring reached from the initial state always
    comes to an end of its loop.  It takes the stored values out in order,
    up to and including the first [POISON_PILL], and counts them; what lies
    behind the pill stays in the ring.  With no pill stored it empties the
    ring and then returns if a stop was requested, and otherwise sleeps in
    [ring_pop]. *)
Theorem X8_consumer_thread_alone :
  forall (mem : nat -> Z) (ops : list ring_op),
    let ring := fst (ring_run (ring_init mem) ops) in
    let taken := until_pill (ring_contents ring) in
    exists ring',
      consumer_thread ring
        = Some (ring', Z.of_nat (length taken),
                consumer_verdict ring (ring_contents ring)) /\
      ring_contents ring' = skipn (length taken) (ring_contents ring) /\
      (has_pill (ring_contents ring) = false ->
       taken = ring_contents ring /\ ring_contents ring' = []).
Proof.
  intros mem ops ring taken. unfold consumer_thread.
  destruct (consumer_loop_spec (S (Z.to_nat (count ring))) ring 0)
    as [r' [E1 E2]].
  - exact (ring_reached_wf mem ops).
  - lia.
  - exists r'. fold taken in E1, E2. rewrite E1, E2.
    split; [reflexivity|]. split; [reflexivity|].
    intros Hnp.
    assert (Ht : taken = ring_contents ring).
    { subst taken. revert Hnp. generalize (ring_contents ring) as l.
      induction l as [|v l IHl]; simpl; [reflexivity|].
      intros H. apply orb_false_elim in H as [Hv Hl]. rewrite Hv.
      f_equal. auto. }
    split; [exact Ht|]. rewrite Ht. apply skipn_all.
Qed.

(* ====================================================================== *)
(** ** Further properties of p5_pipeline.cpp *)
(* ====================================================================== *)

(** X9.  The deadline the buffer functions compute is the clock reading
    plus [timeout_ms] milliseconds, to the nanosecond, and it is a
    normalised [timespec] (nanoseconds within one second) whenever the
    clock reading is one and the timeout is not negative. *)
Theorem X9_deadline_exact_and_normalised :
  forall (now : timespec) (timeout_ms : Z),
    0 <= tv_nsec now < 1000000000 ->
    0 <= timeout_ms ->
    let deadline := abs_timeout now timeout_ms in
    timespec_ns deadline = timespec_ns now + timeout_ms * 1000000 /\
    0 <= tv_nsec deadline < 1000000000 /\
    tv_sec now <= tv_sec deadline.
Proof.
  intros now timeout_ms Hns Ht deadline. subst deadline.
  unfold abs_timeout, timespec_ns.
  pose proof (Z.quot_rem' timeout_ms 1000) as Hqr.
  pose proof (Z.rem_bound_pos timeout_ms 1000 Ht ltac:(lia)) as Hr.
  pose proof (Z.quot_pos timeout_ms 1000 Ht ltac:(lia)) as Hq.
  destruct (tv_nsec now + Z.rem timeout_ms 1000 * 1000000 >=? 1000000000)
    eqn:E; rewrite Z.geb_leb in E;
    [apply Z.leb_le in E | apply Z.leb_gt in E]; simpl; lia.
Qed.

Lemma X9_deadline_witness :
  abs_timeout {| tv_sec := 10; tv_nsec := 999999999 |} 1000
    = {| tv_sec := 11; tv_nsec := 999999999 |} /\
  abs_timeout {| tv_sec := 10; tv_nsec := 600000000 |} 2500
    = {| tv_sec := 13; tv_nsec := 100000000 |} /\
  0 <= tv_nsec (abs_timeout {| tv_sec := 10; tv_nsec := 600000000 |} 2500)
    < 1000000000.
Proof.
  split; [reflexivity|]. split; [reflexivity|].
  apply (X9_deadline_exact_and_normalised
           {| tv_sec := 10; tv_nsec := 600000000 |} 2500); simpl; lia.
Defined.

Lemma passes_filter_id item :
  passes_filter item = true -> (Z.rem (id item) 13 =? 0) = false.
Proof.
  unfold passes_filter.
  destruct (PrimFloat.ltb 0.1 (processed_value item)
            && PrimFloat.ltb (processed_value item) 100);
    [|discriminate].
  destruct (Z.rem (id item) 13 =? 0); simpl; [discriminate|reflexivity].
Qed.

Lemma filter_item_tally now item loc stats :
  let res := filter_item now item loc stats in
  items_filtered (snd res) - items_filtered stats
    = filtered_count (snd (fst res)) - filtered_count loc /\
  0 <= items_filtered (snd res) - items_filtered stats
    <= (if Z.rem (id item) 13 =? 0 then 0 else 1).
Proof.
  unfold filter_item. destruct (passes_filter item) eqn:Hp; simpl.
  - rewrite (passes_filter_id item Hp). lia.
  - destruct (Z.rem (id item) 13 =? 0); lia.
Qed.

Lemma run_ticks_tally P n : forall tick st,
  clean (globals st) ->
  let st' := run_ticks P n tick st in
  let s := pipeline_stats (globals st) in
  let s' := pipeline_stats (globals st') in
  items_filtered s' - items_filtered s
    = filtered_count (locals_stage3 st') - filtered_count (locals_stage3 st)
  /\
  0 <= items_filtered s' - items_filtered s <= eligible_ids n tick.
Proof.
  induction n as [|n IH]; intros tick st Hc.
  - simpl. lia.
  - cbn [run_ticks eligible_ids].
    pose proof (pipeline_tick_clean P tick st Hc) as Ht. cbn zeta in Ht.
    rewrite Ht. clear Ht.
    match goal with
    | |- context [run_ticks P n (tick + 1) ?s1] => set (st1 := s1)
    end.
    assert (Hc1 : clean (globals st1)) by (unfold clean; simpl; auto).
    assert (Hs1 :
      items_filtered (pipeline_stats (globals st1))
        - items_filtered (pipeline_stats (globals st))
      = filtered_count (locals_stage3 st1)
        - filtered_count (locals_stage3 st) /\
      0 <= items_filtered (pipeline_stats (globals st1))
           - items_filtered (pipeline_stats (globals st))
        <= (if Z.rem tick 13 =? 0 then 0 else 1)).
    { subst st1. cbn [globals pipeline_stats locals_stage3].
      match goal with
      | |- context [filter_item ?a ?b ?c ?d] =>
          pose proof (filter_item_tally a b c d) as F;
          replace (id b) with tick in F by reflexivity
      end.
      cbn zeta in F.
      cbn [incr_barrier_waits incr_items_processed incr_items_generated
           items_filtered] in *.
      exact F. }
    clearbody st1.
    specialize (IH (tick + 1) st1 Hc1). cbn zeta in IH.
    destruct IH as [I1 I2]. destruct Hs1 as [S1 S2].
    split; lia.
Qed.

(** X10.  At the end of a run started on the program's initial state, the
    tallies the stages keep in their own variables and print themselves
    agree with the shared statistics: [processed_count] with
    [items_processed], [filtered_count] with [items_filtered]; and every
    generated item has been processed. *)
Theorem X10_stage_tallies_match_statistics :
  forall (P : Platform) (num_ticks : Z),
    let st := run_pipeline_benchmark P num_ticks program_start in
    let s := pipeline_stats (globals st) in
    processed_count st = items_processed s /\
    filtered_count (locals_stage3 st) = items_filtered s /\
    items_generated s = items_processed s.
Proof.
  intros P num_ticks st s.
  destruct (run_pipeline_benchmark_ticks P num_ticks) as (G & Pr & _ & C).
  fold st in G, Pr, C. fold s in G, Pr.
  subst s st. unfold run_pipeline_benchmark, run_stages in *.
  match goal with
  | |- context [run_ticks P ?n ?t ?s0] =>
      pose proof (run_ticks_tally P n t s0) as H
  end.
  cbn zeta in H. destruct H as [H _]; [unfold clean; simpl; auto|].
  cbn [globals pipeline_stats locals_stage3 items_filtered filtered_count
       PipelineStats_new] in H.
  repeat split; lia.
Qed.

(** X11.  The filter never accepts an item whose id is a multiple of 13, so
    of the 1000 items of a run at most 923 pass, whatever values are drawn;
    the balance analysis that closes [run_pipeline_benchmark] therefore
    always reports the filter stage as the bottleneck, and never a balanced
    pipeline. *)
Theorem X11_balance_analysis_verdict :
  forall (P : Platform) (num_ticks : Z),
    let s := pipeline_stats
               (globals (run_pipeline_benchmark P num_ticks program_start)) in
    0 <= items_filtered s <= 923 /\
    balance_analysis s = FilterBottleneck.
Proof.
  intros P num_ticks s.
  destruct (run_pipeline_benchmark_ticks P num_ticks) as (G & Pr & _ & _).
  fold s in G, Pr.
  assert (Hf : 0 <= items_filtered s <= 923).
  { subst s. unfold run_pipeline_benchmark, run_stages in *.
    match goal with
    | |- context [run_ticks P ?n ?t ?s0] =>
        pose proof (run_ticks_tally P n t s0) as H
    end.
    cbn zeta in H. destruct H as [_ H]; [unfold clean; simpl; auto|].
    cbn [globals pipeline_stats items_filtered PipelineStats_new] in H.
    replace (eligible_ids (Z.to_nat DEFAULT_TICKS) 0) with 923 in H
      by (vm_compute; reflexivity).
    lia. }
  split; [exact Hf|].
  unfold balance_analysis, DEFAULT_TICKS in *. rewrite G, Pr.
  destruct (1000 >? 1000 + 50) eqn:E1; [discriminate|].
  destruct (1000 >? items_filtered s + 50) eqn:E2; [reflexivity|].
  rewrite Z.gtb_ltb in E2. apply Z.ltb_ge in E2. lia.
Qed.

(** X12.  With the shutdown flag up, the loop body of [stage_generator]
    ends in [break]: the item it built is not stored, and neither the
    buffers nor any statistic changes. *)
Theorem X12_generator_stops_on_shutdown :
  forall (P : Platform) (tick : Z) (st : PipelineState),
    pipeline_shutdown (globals st) = true ->
    stage_generator_body P tick st = (st, false).
Proof.
  intros P tick [[q1 q2 sd stats] pc i2 l3 i3]. simpl. intros ->.
  unfold stage_generator_body, push_to_buffer1_alone, with_globals.
  unfold_buffers. simpl. rewrite andb_false_r. reflexivity.
Qed.

Lemma X12_generator_stops_witness :
  stage_generator_body sample_platform 5
    (with_globals sample_state (request_pipeline_shutdown program_start))
  = (with_globals sample_state (request_pipeline_shutdown program_start),
     false).
Proof.
  apply (X12_generator_stops_on_shutdown sample_platform 5
           (with_globals sample_state
              (request_pipeline_shutdown program_start))).
  reflexivity.
Defined.

(** X13.  With the shutdown flag up, [stage_processor] still takes the
    front item out of the first buffer and processes it, but its push to
    the second buffer fails and the loop breaks: the item is in neither
    buffer any more, [processed_count] has counted it and [items_processed]
    has not. *)
Theorem X13_processor_drops_item_on_shutdown :
  forall (P : Platform) (st : PipelineState) (item : DataItem)
         (q : list DataItem),
    pipeline_shutdown (globals st) = true ->
    stage1_to_stage2 (globals st) = item :: q ->
    let res := stage_processor_body P st in
    snd res = false /\
    stage1_to_stage2 (globals (fst res)) = q /\
    stage2_to_stage3 (globals (fst res)) = stage2_to_stage3 (globals st) /\
    pipeline_stats (globals (fst res)) = pipeline_stats (globals st) /\
    processed_count (fst res) = processed_count st + 1 /\
    item_stage2 (fst res) = process_item P item.
Proof.
  intros P [[q1 q2 sd stats] pc i2 l3 i3] item q.
  cbn [globals pipeline_shutdown stage1_to_stage2].
  intros -> ->.
  unfold stage_processor_body, pop_from_buffer1_alone,
    push_to_buffer2_alone.
  unfold_buffers. cbn -[process_item]. rewrite andb_false_r.
  cbn -[process_item]. auto 10.
Qed.

Lemma X13_processor_drops_witness :
  let item := DataItem_new 4 21 0 in
  let st :=
    with_globals sample_state
      (request_pipeline_shutdown (with_buffer1 program_start [item])) in
  snd (stage_processor_body sample_platform st) = false /\
  stage1_to_stage2 (globals (fst (stage_processor_body sample_platform st)))
    = [] /\
  stage2_to_stage3 (globals (fst (stage_processor_body sample_platform st)))
    = [].
Proof.
  intros item st.
  destruct (X13_processor_drops_item_on_shutdown sample_platform st item [])
    as (H1 & H2 & H3 & _); [reflexivity | reflexivity |].
  rewrite H1, H2, H3. auto.
Defined.

(** X14.  [stage_filter_reduce] does not look at the shutdown flag while
    its buffer holds something: flag up or not, it takes the front item,
    filters it, counts one more arrival at the barrier and goes on to the
    barrier.  It breaks only on an empty buffer. *)
Theorem X14_filter_stage_drains_regardless :
  forall (P : Platform) (tick : Z) (st : PipelineState),
    let res := stage_filter_reduce_body P tick st in
    match stage2_to_stage3 (globals st) with
    | item :: q =>
        let f := filter_item (clock_stage3 P tick) item (locals_stage3 st)
                   (pipeline_stats (globals st)) in
        snd res = true /\
        stage2_to_stage3 (globals (fst res)) = q /\
        item_stage3 (fst res) = fst (fst f) /\
        locals_stage3 (fst res) = snd (fst f) /\
        pipeline_stats (globals (fst res)) = incr_barrier_waits (snd f)
    | [] =>
        snd res = false /\
        globals (fst res) = globals st /\
        locals_stage3 (fst res) = locals_stage3 st
    end.
Proof.
  intros P tick [[q1 q2 sd stats] pc i2 l3 i3] res. subst res.
  unfold stage_filter_reduce_body, pop_from_buffer2_alone, bump, with_stats.
  unfold_buffers. cbn -[filter_item].
  destruct q2 as [|item q]; cbn -[filter_item].
  - destruct sd; cbn; auto.
  - destruct (filter_item _ _ _ _) as [[i l] s']. cbn. auto.
Qed.

Lemma filter_item_effect now item loc stats :
  let res := filter_item now item loc stats in
  accumulated_result (snd (fst res))
    = float_sum (accumulated_result loc)
        (map processed_value (List.filter passes_filter [item])) /\
  total_latency_ms (snd res)
    = float_sum (total_latency_ms stats)
        (map (fun it => latency_ms now (timestamp it))
             (List.filter passes_filter [item])) /\
  filtered_count (snd (fst res))
    = filtered_count loc
      + Z.of_nat (length (List.filter passes_filter [item])).
Proof.
  unfold filter_item, float_sum. cbn [List.filter].
  destruct (passes_filter item); cbn; repeat split; lia.
Qed.

Lemma passing_items_step P n tick :
  passing_items P (S n) tick
    = List.filter passes_filter [tick_item P tick]
      ++ passing_items P n (tick + 1).
Proof.
  unfold passing_items. cbn [seq map].
  rewrite Z.add_0_r, <- seq_shift, map_map.
  change (tick_item P tick :: ?l) with ([tick_item P tick] ++ l).
  rewrite List.filter_app. do 2 f_equal.
  apply map_ext. intros i. f_equal. lia.
Qed.

Lemma tick_item_id P k : id (tick_item P k) = k.
Proof. unfold tick_item. rewrite process_item_frame. reflexivity. Qed.

Lemma passing_items_id P n : forall tick item,
  In item (passing_items P n tick) ->
  tick <= id item < tick + Z.of_nat n.
Proof.
  intros tick item H. unfold passing_items in H.
  apply filter_In in H as [H _]. apply in_map_iff in H as (i & <- & Hi).
  apply in_seq in Hi. unfold tick_item. rewrite process_item_frame.
  cbn [id set_processed_value DataItem_new]. lia.
Qed.

Lemma run_ticks_fold P n : forall tick st,
  clean (globals st) ->
  let st' := run_ticks P n tick st in
  let passing := passing_items P n tick in
  accumulated_result (locals_stage3 st')
    = float_sum (accumulated_result (locals_stage3 st))
        (map processed_value passing) /\
  total_latency_ms (pipeline_stats (globals st'))
    = float_sum (total_latency_ms (pipeline_stats (globals st)))
        (map (fun it => latency_ms (clock_stage3 P (id it)) (timestamp it))
             passing) /\
  filtered_count (locals_stage3 st')
    = filtered_count (locals_stage3 st) + Z.of_nat (length passing).
Proof.
  induction n as [|n IH]; intros tick st Hc.
  - cbn. repeat split. lia.
  - cbn [run_ticks]. rewrite passing_items_step.
    pose proof (pipeline_tick_clean P tick st Hc) as Ht. cbn zeta in Ht.
    rewrite Ht. clear Ht. fold (tick_item P tick).
    match goal with
    | |- context [run_ticks P n (tick + 1) ?s1] => set (st1 := s1)
    end.
    assert (Hc1 : clean (globals st1)) by (unfold clean; simpl; auto).
    specialize (IH (tick + 1) st1 Hc1). cbn zeta in IH.
    destruct IH as (I1 & I2 & I3). cbn zeta.
    rewrite I1, I2, I3. clear I1 I2 I3.
    subst st1. cbn [globals pipeline_stats locals_stage3].
    match goal with
    | |- context [filter_item ?a ?b ?c ?d] =>
        destruct (filter_item_effect a b c d) as (F1 & F2 & F3)
    end.
    cbn [incr_barrier_waits total_latency_ms].
    rewrite F1, F2, F3.
    cbn [incr_barrier_waits incr_items_processed incr_items_generated
         total_latency_ms].
    unfold float_sum. rewrite !map_app, !fold_left_app, length_app.
    split; [reflexivity|]. split; [|lia].
    do 2 f_equal.
    cbn [List.filter]. destruct (passes_filter (tick_item P tick));
      [|reflexivity].
    cbn [map]. rewrite tick_item_id. reflexivity.
Qed.

(** X15.  What a run computes, as one expression: the filter stage's
    accumulated result is the left-to-right floating-point sum, from 0.0,
    of the processed values of the items that pass the filter, taken in
    tick order over the ticks 0 to 999; the latency total is the like sum
    of their latencies; and the filter count is their number. *)
Theorem X15_run_is_filter_then_sum :
  forall (P : Platform) (num_ticks : Z),
    let st := run_pipeline_benchmark P num_ticks program_start in
    let passing := passing_items P (Z.to_nat DEFAULT_TICKS) 0 in
    accumulated_result (locals_stage3 st)
      = float_sum 0%float (map processed_value passing) /\
    total_latency_ms (pipeline_stats (globals st))
      = float_sum 0%float
          (map (fun it => latency_ms (clock_stage3 P (id it)) (timestamp it))
               passing) /\
    filtered_count (locals_stage3 st) = Z.of_nat (length passing) /\
    (forall item, In item passing ->
       0 <= id item < DEFAULT_TICKS /\ passes_filter item = true).
Proof.
  intros P num_ticks st passing.
  subst st. unfold run_pipeline_benchmark, run_stages.
  match goal with
  | |- context [run_ticks P ?n ?t ?s0] =>
      pose proof (run_ticks_fold P n t s0) as H
  end.
  cbn zeta in H. destruct H as (H1 & H2 & H3); [unfold clean; simpl; auto|].
  fold passing in H1, H2, H3.
  split; [exact H1|]. split; [exact H2|]. split; [exact H3|].
  intros item Hin. subst passing. split.
  - pose proof (passing_items_id P _ 0 item Hin) as Hid.
    unfold DEFAULT_TICKS in *. lia.
  - unfold passing_items in Hin. apply filter_In in Hin. apply Hin.
Qed.
